(** * Tor identity rotation: [rotating_ip.py]

    A shallow embedding of the rotator class of [rotating_ip.py] and the
    properties of its rotation loop, constructor and request helper.
    [rotating_proxy.py] holds the same class under other names, but its
    line 76 is indented deeper than the docstring before it: the module
    does not load, and it is not embedded.

    Python objects are records, Python exceptions are values of [exn], and
    the two external capabilities (the Tor control port reached through
    [stem], the HTTP transport reached through [httpx]) are oracles kept in
    a [World] together with the log of every call made to them. *)

From Stdlib Require Import ZArith Lia Ascii String.
From stdpp Require Import gmap strings list fin_maps pretty.

Open Scope string_scope.
Open Scope Z_scope.

(** ** Exceptions and results *)

(** The exception classes that the two modules raise or let through.
    In [httpx], [RequestError] (transport failures: connection, timeout,
    proxy, ...) and [HTTPStatusError] (raised by [raise_for_status]) are
    sibling subclasses of [HTTPError]: an [except httpx.RequestError]
    clause does not catch an [HTTPStatusError]. *)
Inductive exn : Type :=
| ValueError (msg : string)
| RuntimeError (msg : string)
| RequestError (msg : string)
| HTTPStatusError (status_code : Z) (url : string)
| StemError (msg : string)
| TypeError (msg : string).

Inductive result (A : Type) : Type :=
| Ok (a : A)
| Raise (e : exn).
Arguments Ok {A} a.
Arguments Raise {A} e.

(** ** The outside world *)

(** [httpx.HTTPTransport(proxy=...)]; the proxy is [os.getenv("SOCKET")]. *)
Inductive transport : Type :=
| HTTPTransport (proxy : option string).

(** How a GET leaves the process: the module-level [httpx.get], or the
    [get] of an [httpx.Client(mounts=...)]. *)
Inductive route : Type :=
| Direct
| ViaClient (mounts : gmap string transport).

(** What the network answers to one GET. *)
Inductive http_reply : Type :=
| Response (status_code : Z) (text : string)
| TransportFailure (msg : string).

(** What the Tor control port answers during one [Controller.from_port]
    session, stage by stage; [Some msg] is the failure of that stage. *)
Record ctl_session : Type := {
  connect_error : option string;
  authenticate_error : option string;
  signal_error : option string;
  get_info_error : option string;
  get_info_reply : string
}.

Inductive call : Type :=
| HttpGet (r : route) (url : string)
| FromPort (port : Z)
| Authenticate (password : option string)
| SignalNEWNYM
| GetInfo (key : string).

(** The [n]-th GET is answered by [http_oracle n], the [n]-th control
    session by [ctl_oracle n]; [log] lists the calls made so far. *)
Record World : Type := {
  http_oracle : nat -> route -> string -> http_reply;
  ctl_oracle : nat -> ctl_session;
  http_seq : nat;
  ctl_seq : nat;
  log : list call
}.

Definition log_call (c : call) (w : World) : World :=
  {| http_oracle := http_oracle w; ctl_oracle := ctl_oracle w;
     http_seq := http_seq w; ctl_seq := ctl_seq w;
     log := log w ++ [c] |}.

Definition next_http (w : World) : World :=
  {| http_oracle := http_oracle w; ctl_oracle := ctl_oracle w;
     http_seq := S (http_seq w); ctl_seq := ctl_seq w;
     log := log w |}.

Definition next_ctl (w : World) : World :=
  {| http_oracle := http_oracle w; ctl_oracle := ctl_oracle w;
     http_seq := http_seq w; ctl_seq := S (ctl_seq w);
     log := log w |}.

(** Number of NEWNYM signals in a log. *)
Definition is_signal (c : call) : bool :=
  match c with SignalNEWNYM => true | _ => false end.

Definition is_http (c : call) : bool :=
  match c with HttpGet _ _ => true | _ => false end.

Definition signals (l : list call) : nat := length (List.filter is_signal l).
Definition probes (l : list call) : nat := length (List.filter is_http l).

(** ** A state and exception monad

    A method of an object of type [O] runs on the pair of the object and
    the world, and either returns or raises; mutations made before a raise
    stay. *)
Definition M (O A : Type) : Type := O * World -> result A * (O * World).

Definition ret {O A} (a : A) : M O A := fun st => (Ok a, st).

Definition raise {O A} (e : exn) : M O A := fun st => (Raise e, st).

Definition bind {O A B} (m : M O A) (k : A -> M O B) : M O B :=
  fun st =>
    match m st with
    | (Ok a, st') => k a st'
    | (Raise e, st') => (Raise e, st')
    end.

Declare Scope py_scope.
Delimit Scope py_scope with py.
Notation "x <- c ;; k" := (bind c (fun x => k))
  (at level 100, c at next level, right associativity) : py_scope.
Notation "c ;; k" := (bind c (fun _ => k))
  (at level 100, right associativity) : py_scope.
Open Scope py_scope.

Definition get_self {O} : M O O := fun st => (Ok (fst st), st).

Definition modify_self {O} (f : O -> O) : M O unit :=
  fun st => (Ok tt, (f (fst st), snd st)).

(** [try: body / except httpx.RequestError as e: handler e]. *)
Definition try_except_RequestError {O A}
    (body : M O A) (handler : string -> M O A) : M O A :=
  fun st =>
    match body st with
    | (Raise (RequestError msg), st') => handler msg st'
    | other => other
    end.

(** [for _ in range(n): body] followed by [after], where [body] yields
    [Some v] for [return v] and [None] when the iteration ends in
    [continue]. *)
Fixpoint for_range {O A} (n : nat) (body : M O (option A)) (after : M O A)
    : M O A :=
  match n with
  | O => after
  | S k =>
      r <- body ;;
      match r with
      | Some v => ret v
      | None => for_range k body after
      end
  end.

(** ** [httpx] *)

Definition send_get {O} (r : route) (url : string) : M O http_reply :=
  fun st =>
    let w := snd st in
    (Ok (http_oracle w (http_seq w) r url),
     (fst st, next_http (log_call (HttpGet r url) w))).

(** [client.get(url)] / [httpx.get(url)]: a response, or a transport
    failure raised as [httpx.RequestError]. *)
Definition httpx_get {O} (r : route) (url : string) : M O (Z * string) :=
  reply <- send_get r url ;;
  match reply with
  | Response status text => ret (status, text)
  | TransportFailure msg => raise (RequestError msg)
  end.

(** [response.raise_for_status()]: anything but a 2xx raises. *)
Definition is_success (status : Z) : bool :=
  (200 <=? status) && (status <=? 299).

Definition raise_for_status {O} (url : string) (response : Z * string)
    : M O unit :=
  if is_success (fst response) then ret tt
  else raise (HTTPStatusError (fst response) url).

(** ** [stem.control.Controller] *)

Definition controller : Type := nat.

Definition Controller_from_port {O} (port : Z) : M O controller :=
  fun st =>
    let w := snd st in
    let c := ctl_seq w in
    let st' := (fst st, next_ctl (log_call (FromPort port) w)) in
    match connect_error (ctl_oracle w c) with
    | Some msg => (Raise (StemError msg), st')
    | None => (Ok c, st')
    end.

Definition controller_authenticate {O} (c : controller)
    (password : option string) : M O unit :=
  fun st =>
    let w := snd st in
    let st' := (fst st, log_call (Authenticate password) w) in
    match authenticate_error (ctl_oracle w c) with
    | Some msg => (Raise (StemError msg), st')
    | None => (Ok tt, st')
    end.

Definition controller_signal_NEWNYM {O} (c : controller) : M O unit :=
  fun st =>
    let w := snd st in
    let st' := (fst st, log_call SignalNEWNYM w) in
    match signal_error (ctl_oracle w c) with
    | Some msg => (Raise (StemError msg), st')
    | None => (Ok tt, st')
    end.

Definition controller_get_info {O} (c : controller) (key : string)
    : M O string :=
  fun st =>
    let w := snd st in
    let st' := (fst st, log_call (GetInfo key) w) in
    match get_info_error (ctl_oracle w c) with
    | Some msg => (Raise (StemError msg), st')
    | None => (Ok (get_info_reply (ctl_oracle w c)), st')
    end.

(** ** [str.splitlines]

    Strings are sequences of code points below 256; the line boundaries
    of [str.splitlines] in that range are LF, VT, FF, CR, FS, GS, RS and
    NEL, and CR LF counts as one boundary. *)
Definition is_linebreak (c : ascii) : bool :=
  let n := nat_of_ascii c in
  ((n =? 10) || (n =? 11) || (n =? 12) || (n =? 13)
   || (n =? 28) || (n =? 29) || (n =? 30) || (n =? 133))%nat.

Definition is_CR (c : ascii) : bool := (nat_of_ascii c =? 13)%nat.
Definition is_LF (c : ascii) : bool := (nat_of_ascii c =? 10)%nat.

Fixpoint splitlines_from (line : string) (s : string) : list string :=
  match s with
  | EmptyString =>
      match line with EmptyString => [] | _ => [line] end
  | String c rest =>
      if is_linebreak c then
        line ::
        match rest with
        | String c' rest' =>
            if is_CR c && is_LF c' then splitlines_from "" rest'
            else splitlines_from "" rest
        | EmptyString => []
        end
      else splitlines_from (line +:+ String c "") rest
  end.

Definition splitlines (s : string) : list string := splitlines_from "" s.

(** ** The environment of the process

    The variables read when the class body and the constructor run, and
    what the installed [httpx] makes of a proxy address:
    [HTTPTransport_error proxy] is the exception that
    [httpx.HTTPTransport(proxy=proxy)] raises ([ValueError] for an address
    whose scheme it does not know, and whatever it raises for an address
    it cannot parse or a SOCKS proxy it has no support for), and [None]
    when it builds the transport. *)
Record Environ : Type := {
  PORT : Z;
  SERVICE_URL : option string;
  PASSWORD : option string;
  SOCKET : option string;
  MAX_CIRCUIT_DIRTINESS : Z;
  HTTPTransport_error : option string -> option exn
}.

(** [httpx.HTTPTransport(proxy=proxy)]: makes no call to the network. *)
Definition httpx_HTTPTransport {O} (env : Environ) (proxy : option string)
    : M O transport :=
  match HTTPTransport_error env proxy with
  | Some e => raise e
  | None => ret (HTTPTransport proxy)
  end.

(** Python truthiness of an optional string: [None] and [""] are falsy. *)
Definition truthy (s : option string) : bool :=
  match s with
  | None => false
  | Some EmptyString => false
  | Some _ => true
  end.

(** ** Formatting and standard output *)

(** What an f-string puts for a field declared [str = None]: the string
    itself, or the text of [None]. *)
Definition format_optional (s : option string) : string :=
  match s with
  | Some text => text
  | None => "None"
  end.

(** The escape [\n] of a Python string literal. *)
Definition newline : string := String (ascii_of_nat 10) "".

(** A script that prints runs on an object paired with the lines written
    so far to standard output, one entry for each [print] call. *)
Definition print {O} (text : string) : M (O * list string) unit :=
  modify_self (fun o => (fst o, snd o ++ [text])%list).

(** A method of the object, called from such a script. *)
Definition method {O A} (m : M O A) : M (O * list string) A :=
  fun st =>
    match m (fst (fst st), snd st) with
    | (r, (self, w)) => (r, ((self, snd (fst st)), w))
    end.

(** * [rotating_ip.py] *)
Module rotating_ip.

(** ** [class TorIpRotator(BaseModel, AbstractIP)] *)
Record TorIpRotator : Type := {
  tor_ip : option string;
  local_ip : option string;
  tor_data : gmap string (list string);
  max_rotations : Z;
  tor_mount_ip : gmap string transport;
  tor_port : Z;
  used_ips : list string;
  ip_service_url : option string;
  _tor_password : option string;
  max_circuit_dirtness : Z
}.

Definition set_tor_ip (v : option string) (self : TorIpRotator) :=
  {| tor_ip := v; local_ip := local_ip self; tor_data := tor_data self;
     max_rotations := max_rotations self; tor_mount_ip := tor_mount_ip self;
     tor_port := tor_port self; used_ips := used_ips self;
     ip_service_url := ip_service_url self;
     _tor_password := _tor_password self;
     max_circuit_dirtness := max_circuit_dirtness self |}.

Definition set_local_ip (v : option string) (self : TorIpRotator) :=
  {| tor_ip := tor_ip self; local_ip := v; tor_data := tor_data self;
     max_rotations := max_rotations self; tor_mount_ip := tor_mount_ip self;
     tor_port := tor_port self; used_ips := used_ips self;
     ip_service_url := ip_service_url self;
     _tor_password := _tor_password self;
     max_circuit_dirtness := max_circuit_dirtness self |}.

Definition set_tor_data (v : gmap string (list string)) (self : TorIpRotator) :=
  {| tor_ip := tor_ip self; local_ip := local_ip self; tor_data := v;
     max_rotations := max_rotations self; tor_mount_ip := tor_mount_ip self;
     tor_port := tor_port self; used_ips := used_ips self;
     ip_service_url := ip_service_url self;
     _tor_password := _tor_password self;
     max_circuit_dirtness := max_circuit_dirtness self |}.

Definition set_tor_mount_ip (v : gmap string transport) (self : TorIpRotator) :=
  {| tor_ip := tor_ip self; local_ip := local_ip self; tor_data := tor_data self;
     max_rotations := max_rotations self; tor_mount_ip := v;
     tor_port := tor_port self; used_ips := used_ips self;
     ip_service_url := ip_service_url self;
     _tor_password := _tor_password self;
     max_circuit_dirtness := max_circuit_dirtness self |}.

Definition set_used_ips (v : list string) (self : TorIpRotator) :=
  {| tor_ip := tor_ip self; local_ip := local_ip self; tor_data := tor_data self;
     max_rotations := max_rotations self; tor_mount_ip := tor_mount_ip self;
     tor_port := tor_port self; used_ips := v;
     ip_service_url := ip_service_url self;
     _tor_password := _tor_password self;
     max_circuit_dirtness := max_circuit_dirtness self |}.

(** Keyword arguments of the constructor: the fields that are not
    [Final]; [None] is an omitted keyword. *)
Record kwargs : Type := {
  kw_tor_ip : option string;
  kw_local_ip : option string;
  kw_tor_data : option (gmap string (list string));
  kw_max_rotations : option Z;
  kw_tor_mount_ip : option (gmap string transport);
  kw_used_ips : option (list string)
}.

Definition no_kwargs : kwargs :=
  {| kw_tor_ip := None; kw_local_ip := None; kw_tor_data := None;
     kw_max_rotations := None; kw_tor_mount_ip := None;
     kw_used_ips := None |}.

(** The call to the [BaseModel] constructor that opens [__init__]: every
    field gets its keyword or its declared default. *)
Definition BaseModel_init (env : Environ) (kw : kwargs) : TorIpRotator :=
  {| tor_ip := kw_tor_ip kw;
     local_ip := kw_local_ip kw;
     tor_data := default ∅ (kw_tor_data kw);
     max_rotations := default 10 (kw_max_rotations kw);
     tor_mount_ip := default ∅ (kw_tor_mount_ip kw);
     tor_port := PORT env;
     used_ips := default [] (kw_used_ips kw);
     ip_service_url := SERVICE_URL env;
     _tor_password := PASSWORD env;
     max_circuit_dirtness := MAX_CIRCUIT_DIRTINESS env |}.

(** A URL argument that is [None] is refused by [httpx]. *)
Definition url_argument (u : option string) : M TorIpRotator string :=
  match u with
  | Some s => ret s
  | None => raise (TypeError "Invalid type for url.")
  end.

Definition make_request_through_tor (url : string) : M TorIpRotator string :=
  try_except_RequestError
    (self <- get_self ;;
     response <- httpx_get (ViaClient (tor_mount_ip self)) url ;;
     raise_for_status url response ;;
     ret (snd response))
    (fun e =>
       raise (RuntimeError ("Failed to make a request through Tor: " +:+ e))).

Definition __extract_circuit_status (data : string) : list string :=
  splitlines data.

Definition __renew_tor_circuit : M TorIpRotator unit :=
  self <- get_self ;;
  controller <- Controller_from_port (tor_port self) ;;
  controller_authenticate controller (_tor_password self) ;;
  controller_signal_NEWNYM controller ;;
  info <- controller_get_info controller "circuit-status" ;;
  modify_self (fun self =>
    set_tor_data
      (<["circuit_status" := __extract_circuit_status info]> (tor_data self))
      self).

Definition __check_local_ip : M TorIpRotator string :=
  self <- get_self ;;
  url <- url_argument (ip_service_url self) ;;
  response <- httpx_get Direct url ;;
  raise_for_status url response ;;
  ret (snd response).

Definition __check_tor_ip : M TorIpRotator string :=
  self <- get_self ;;
  url <- url_argument (ip_service_url self) ;;
  make_request_through_tor url.

Definition __generate_new_tor_ip : M TorIpRotator string :=
  __renew_tor_circuit ;;
  __check_tor_ip.

Definition __init__ (env : Environ) : M TorIpRotator unit :=
  self <- get_self ;;
  if negb (truthy (_tor_password self)) then
    raise (ValueError
      "Tor password is not set. Ensure the PASSWORD environment variable is configured.")
  else if negb (truthy (ip_service_url self)) then
    raise (ValueError
      "Service URL is not set. Ensure the SERVICE_URL environment variable is configured.")
  else
    ip <- __check_local_ip ;;
    modify_self (set_local_ip (Some ip)) ;;
    ip <- __check_tor_ip ;;
    modify_self (set_tor_ip (Some ip)) ;;
    http <- httpx_HTTPTransport env (SOCKET env) ;;
    https <- httpx_HTTPTransport env (SOCKET env) ;;
    modify_self (set_tor_mount_ip
      (<["http://" := http]> (<["https://" := https]> ∅))).

(** Instantiating the class with keywords [kw]: the object if [__init__]
    returns, its exception otherwise. *)
Definition new (env : Environ) (kw : kwargs) (w : World)
    : result TorIpRotator * World :=
  match __init__ env (BaseModel_init env kw, w) with
  | (Ok _, (self, w')) => (Ok self, w')
  | (Raise e, (_, w')) => (Raise e, w')
  end.

Definition exhausted_msg : string := "All possible IPs have been exhausted.".
Definition max_rotations_msg : string :=
  "Max IP rotations reached. Failed to get a unique new IP.".

(** One iteration of the loop of [rotate_ip]: [Some ip] is [return ip],
    [None] is [continue]. *)
Definition rotate_ip_attempt (unique prevent_ips_match : bool)
    : M TorIpRotator (option string) :=
  new_tor_ip <- __generate_new_tor_ip ;;
  self <- get_self ;;
  if prevent_ips_match && bool_decide (Some new_tor_ip = local_ip self) then
    ret None
  else if unique && bool_decide (new_tor_ip ∈ used_ips self) then
    if Z.of_nat (length (used_ips self)) >=? max_rotations self then
      raise (RuntimeError exhausted_msg)
    else ret None
  else
    modify_self (fun self => set_used_ips (used_ips self ++ [new_tor_ip]) self) ;;
    ret (Some new_tor_ip).

Definition rotate_ip (unique prevent_ips_match : bool)
    : M TorIpRotator string :=
  self <- get_self ;;
  for_range (Z.to_nat (max_rotations self))
    (rotate_ip_attempt unique prevent_ips_match)
    (raise (RuntimeError max_rotations_msg)).

(** The call with keywords left out:
    [def rotate_ip(self, unique: bool = False, prevent_ips_match: bool = True)]. *)
Definition rotate_ip_kw (unique prevent_ips_match : option bool)
    : M TorIpRotator string :=
  rotate_ip (default false unique) (default true prevent_ips_match).

(** A caller making one [rotate_ip] call after another on the same
    object, catching whatever a call raises before making the next. *)
Fixpoint rotate_ip_calls (args : list (bool * bool))
    (st : TorIpRotator * World)
    : list (result string) * (TorIpRotator * World) :=
  match args with
  | [] => ([], st)
  | (unique, prevent_ips_match) :: rest =>
      let '(r, st') := rotate_ip unique prevent_ips_match st in
      let '(rs, st'') := rotate_ip_calls rest st' in
      (r :: rs, st'')
  end.

(** [__repr__]: an f-string over three fields. *)
Definition __repr__ (self : TorIpRotator) : string :=
  "TorIpRotator(tor_ip=" +:+ format_optional (tor_ip self)
  +:+ ", local_ip=" +:+ format_optional (local_ip self)
  +:+ ", max_rotations=" +:+ pretty (max_rotations self) +:+ ")".

(** The body of the loop of [show_example]; each f-string is evaluated
    before its [print] runs. *)
Definition show_example_body : M (TorIpRotator * list string) (option unit) :=
  ip <- get_self ;;
  print ("Local IP: " +:+ format_optional (local_ip (fst ip))) ;;
  rotated <- method (rotate_ip_kw (Some true) None) ;;
  print ("Rotated IP: " +:+ rotated) ;;
  ip <- get_self ;;
  url <- method (url_argument (ip_service_url (fst ip))) ;;
  seen <- method (make_request_through_tor url) ;;
  print ("IP seen by an external server: " +:+ seen +:+ newline) ;;
  ret None.

(** [show_example()]: the result, the lines printed and the world. *)
Definition show_example (env : Environ) (w : World)
    : result unit * (list string * World) :=
  match new env no_kwargs w with
  | (Raise e, w') => (Raise e, ([], w'))
  | (Ok ip, w') =>
      match for_range 3 show_example_body (ret tt) ((ip, []), w') with
      | (r, ((_, out), w'')) => (r, (out, w''))
      end
  end.

End rotating_ip.

(** * Scripted worlds

    Worlds whose capabilities answer from a script, as a test double
    would: the [n]-th GET gets the [n]-th reply of the list whatever its
    route and URL, and every control session succeeds. *)

Definition session_ok (status : string) : ctl_session :=
  {| connect_error := None; authenticate_error := None;
     signal_error := None; get_info_error := None;
     get_info_reply := status |}.

Definition scripted (replies : list http_reply) : World :=
  {| http_oracle := fun n _ _ => nth n replies (TransportFailure "unreachable");
     ctl_oracle := fun _ => session_ok "1 BUILT";
     http_seq := 0; ctl_seq := 0; log := [] |}.

Definition test_url : string := "http://ip.test/".

(** An [httpx] that builds a transport without proxy or for a proxy
    address that starts with a scheme it knows, and raises [ValueError]
    for any other address. *)
Definition scheme_checking_httpx (proxy : option string) : option exn :=
  match proxy with
  | None => None
  | Some address =>
      if existsb (fun scheme => String.prefix scheme address)
           ["http://"; "https://"; "socks5://"; "socks5h://"]
      then None
      else Some (ValueError "Unknown scheme for proxy URL")
  end.

Definition test_env : Environ :=
  {| PORT := 9051; SERVICE_URL := Some test_url; PASSWORD := Some "secret";
     SOCKET := Some "socks5://127.0.0.1:9050"; MAX_CIRCUIT_DIRTINESS := 10;
     HTTPTransport_error := scheme_checking_httpx |}.

(** The same environment with a proxy address that has no scheme. *)
Definition test_env_without_scheme : Environ :=
  {| PORT := 9051; SERVICE_URL := Some test_url; PASSWORD := Some "secret";
     SOCKET := Some "127.0.0.1:9050"; MAX_CIRCUIT_DIRTINESS := 10;
     HTTPTransport_error := scheme_checking_httpx |}.

(** A rotator as the constructor leaves it when the direct probe reads
    [baseline] and the constructor's second probe reads [first]. *)
Definition test_rotator (baseline first : string) (max : Z)
    (history : list string) : rotating_ip.TorIpRotator :=
  {| rotating_ip.tor_ip := Some first;
     rotating_ip.local_ip := Some baseline;
     rotating_ip.tor_data := ∅;
     rotating_ip.max_rotations := max;
     rotating_ip.tor_mount_ip :=
       <["http://" := HTTPTransport (SOCKET test_env)]>
         (<["https://" := HTTPTransport (SOCKET test_env)]> ∅);
     rotating_ip.tor_port := 9051;
     rotating_ip.used_ips := history;
     rotating_ip.ip_service_url := Some test_url;
     rotating_ip._tor_password := Some "secret";
     rotating_ip.max_circuit_dirtness := 10 |}.

(** * Vocabulary of the statements *)

Import rotating_ip.

(** What no method touches after construction: every field but the
    history and the diagnostics. *)
Definition same_config (s s' : TorIpRotator) : Prop :=
  tor_ip s' = tor_ip s ∧ local_ip s' = local_ip s ∧
  max_rotations s' = max_rotations s ∧ tor_mount_ip s' = tor_mount_ip s ∧
  tor_port s' = tor_port s ∧ ip_service_url s' = ip_service_url s ∧
  _tor_password s' = _tor_password s.

(** The world [w'] is [w] after the calls [l]. *)
Definition world_frame (w w' : World) (l : list call) : Prop :=
  http_oracle w' = http_oracle w ∧ ctl_oracle w' = ctl_oracle w ∧
  log w' = (log w ++ l)%list.

Definition after_get (r : route) (url : string) (w : World) : World :=
  next_http (log_call (HttpGet r url) w).

(** What [make_request_through_tor] makes of a reply. *)
Definition tor_request_outcome (url : string) (reply : http_reply)
    : result string :=
  match reply with
  | Response status text =>
      if is_success status then Ok text
      else Raise (HTTPStatusError status url)
  | TransportFailure msg =>
      Raise (RuntimeError ("Failed to make a request through Tor: " +:+ msg))
  end.

(** What [__check_local_ip] makes of a reply. *)
Definition direct_request_outcome (url : string) (reply : http_reply)
    : result string :=
  match reply with
  | Response status text =>
      if is_success status then Ok text
      else Raise (HTTPStatusError status url)
  | TransportFailure msg => Raise (RequestError msg)
  end.

(** An error that wraps the failure [cause]: a [RuntimeError] whose text
    ends with the text of the cause. *)
Definition wraps (e : exn) (cause : string) : Prop :=
  ∃ prefix, e = RuntimeError (prefix +:+ cause).

Definition session_succeeds (c : ctl_session) : bool :=
  bool_decide (connect_error c = None)
  && bool_decide (authenticate_error c = None)
  && bool_decide (signal_error c = None)
  && bool_decide (get_info_error c = None).

(** The object and the world after a renewal whose four stages succeed. *)
Definition renewed (s : TorIpRotator) (w : World) : TorIpRotator * World :=
  (set_tor_data
     (<["circuit_status" :=
          splitlines (get_info_reply (ctl_oracle w (ctl_seq w)))]>
        (tor_data s)) s,
   log_call (GetInfo "circuit-status")
     (log_call SignalNEWNYM
        (log_call (Authenticate (_tor_password s))
           (next_ctl (log_call (FromPort (tor_port s)) w))))).

(** The object and the world after an attempt that renews and probes. *)
Definition probed (s : TorIpRotator) (w : World) (url : string)
    : TorIpRotator * World :=
  ((renewed s w).1,
   after_get (ViaClient (tor_mount_ip s)) url (renewed s w).2).

(** The route of the constructor's second probe: the client is made from
    the mounts the object has when [__check_tor_ip] runs, the keyword or
    the empty default, since [tor_mount_ip] is assigned after it. *)
Definition constructor_route (kw : kwargs) : route :=
  ViaClient (default ∅ (kw_tor_mount_ip kw)).

(** The [i]-th attempt from now renews the circuit and its probe reads
    the address [a] in a 2xx response, provided each attempt before it made
    one control session and one GET. *)
Definition attempt_reads (s : TorIpRotator) (w : World) (i : nat)
    (a : string) : bool :=
  session_succeeds (ctl_oracle w (ctl_seq w + i)%nat)
  && match ip_service_url s with
     | Some url =>
         match http_oracle w (http_seq w + i)%nat
                 (ViaClient (tor_mount_ip s)) url with
         | Response status text =>
             is_success status && bool_decide (text = a)
         | TransportFailure _ => false
         end
     | None => false
     end.

(** The addresses returned by a sequence of calls. *)
Definition accepted (rs : list (result string)) : list string :=
  omap (fun r => match r with Ok a => Some a | Raise _ => None end) rs.

(** The state after [n] iterations of the loop that all end in
    [continue], if the next [n] iterations do. *)
Fixpoint rejected_attempts (n : nat) (unique prevent_ips_match : bool)
    (st : TorIpRotator * World) : option (TorIpRotator * World) :=
  match n with
  | O => Some st
  | S k =>
      match rotate_ip_attempt unique prevent_ips_match st with
      | (Ok None, st') => rejected_attempts k unique prevent_ips_match st'
      | _ => None
      end
  end.

(** Whether a string holds a line boundary of [str.splitlines]. *)
Fixpoint has_linebreak (s : string) : bool :=
  match s with
  | EmptyString => false
  | String c rest => is_linebreak c || has_linebreak rest
  end.

(** An address that an iteration of [rotate_ip] answers with [continue]:
    the baseline when [prevent_ips_match] is on, or, when [unique] is on,
    an address of the history while the history is shorter than
    [max_rotations]. *)
Definition silently_rejected (unique prevent_ips_match : bool)
    (s : TorIpRotator) (b : string) : Prop :=
  (prevent_ips_match = true ∧ Some b = local_ip s) ∨
  (unique = true ∧ b ∈ used_ips s ∧
   Z.of_nat (length (used_ips s)) < max_rotations s).

(** * Equations of the helpers *)

Lemma signals_app (l1 l2 : list call) :
  signals (l1 ++ l2) = (signals l1 + signals l2)%nat.
Proof. unfold signals. by rewrite List.filter_app, length_app. Qed.

Lemma world_frame_refl (w : World) : world_frame w w [].
Proof. unfold world_frame. by rewrite app_nil_r. Qed.

Lemma world_frame_trans (w1 w2 w3 : World) (l1 l2 : list call) :
  world_frame w1 w2 l1 → world_frame w2 w3 l2 → world_frame w1 w3 (l1 ++ l2).
Proof.
  intros (H1 & H2 & H3) (H4 & H5 & H6). unfold world_frame.
  rewrite H4, H5, H6, H3, app_assoc. done.
Qed.

Lemma same_config_refl (s : TorIpRotator) : same_config s s.
Proof. by unfold same_config. Qed.

Lemma same_config_trans (s1 s2 s3 : TorIpRotator) :
  same_config s1 s2 → same_config s2 s3 → same_config s1 s3.
Proof.
  unfold same_config. intros (?&?&?&?&?&?&?) (?&?&?&?&?&?&?).
  split_and!; congruence.
Qed.

Lemma make_request_through_tor_eq (url : string) (s : TorIpRotator) (w : World) :
  make_request_through_tor url (s, w) =
  (tor_request_outcome url
     (http_oracle w (http_seq w) (ViaClient (tor_mount_ip s)) url),
   (s, after_get (ViaClient (tor_mount_ip s)) url w)).
Proof.
  unfold make_request_through_tor, try_except_RequestError, httpx_get,
    send_get, raise_for_status, bind, get_self, ret, raise,
    tor_request_outcome, after_get.
  cbn [fst snd].
  destruct (http_oracle w (http_seq w) (ViaClient (tor_mount_ip s)) url)
    as [code a|msg]; [|reflexivity].
  cbn [fst snd]. destruct (is_success code); reflexivity.
Qed.

Lemma check_local_ip_eq (url : string) (s : TorIpRotator) (w : World) :
  ip_service_url s = Some url →
  __check_local_ip (s, w) =
  (direct_request_outcome url (http_oracle w (http_seq w) Direct url),
   (s, after_get Direct url w)).
Proof.
  intros Hurl.
  unfold __check_local_ip, url_argument, httpx_get, send_get,
    raise_for_status, bind, get_self, ret, raise, direct_request_outcome,
    after_get.
  cbn [fst snd]. rewrite Hurl. cbn [fst snd].
  destruct (http_oracle w (http_seq w) Direct url) as [code a|msg];
    [|reflexivity].
  cbn [fst snd]. destruct (is_success code); reflexivity.
Qed.

Lemma session_succeeds_true (c : ctl_session) :
  session_succeeds c = true →
  connect_error c = None ∧ authenticate_error c = None ∧
  signal_error c = None ∧ get_info_error c = None.
Proof.
  unfold session_succeeds. rewrite !andb_true_iff, !bool_decide_eq_true.
  tauto.
Qed.

Lemma renew_ok (s : TorIpRotator) (w : World) :
  session_succeeds (ctl_oracle w (ctl_seq w)) = true →
  __renew_tor_circuit (s, w) = (Ok tt, renewed s w).
Proof.
  intros (H1 & H2 & H3 & H4)%session_succeeds_true.
  unfold __renew_tor_circuit, Controller_from_port, controller_authenticate,
    controller_signal_NEWNYM, controller_get_info, bind, get_self,
    modify_self, renewed.
  cbn [fst snd ctl_oracle next_ctl log_call]. rewrite H1.
  cbn [fst snd ctl_oracle next_ctl log_call]. rewrite H2.
  cbn [fst snd ctl_oracle next_ctl log_call]. rewrite H3.
  cbn [fst snd ctl_oracle next_ctl log_call]. rewrite H4.
  reflexivity.
Qed.

Lemma renew_frame (s : TorIpRotator) (w : World) r s' w' :
  __renew_tor_circuit (s, w) = (r, (s', w')) →
  same_config s s' ∧ used_ips s' = used_ips s ∧
  http_seq w' = http_seq w ∧ ctl_seq w' = S (ctl_seq w) ∧
  ∃ l, world_frame w w' l ∧ (signals l ≤ 1)%nat ∧ probes l = 0%nat ∧
       (r = Ok tt → signals l = 1%nat).
Proof.
  unfold __renew_tor_circuit, Controller_from_port, controller_authenticate,
    controller_signal_NEWNYM, controller_get_info, bind, get_self,
    modify_self.
  cbn [fst snd ctl_oracle next_ctl log_call].
  destruct (connect_error _); [|
  cbn [fst snd ctl_oracle next_ctl log_call];
  destruct (authenticate_error _); [|
  cbn [fst snd ctl_oracle next_ctl log_call];
  destruct (signal_error _); [|
  cbn [fst snd ctl_oracle next_ctl log_call];
  destruct (get_info_error _)]]].
  all: intros [= <- <- <-]; unfold same_config, world_frame;
    cbn [log log_call next_ctl next_http http_oracle ctl_oracle http_seq
         ctl_seq tor_ip local_ip max_rotations tor_mount_ip tor_port
         used_ips ip_service_url _tor_password set_tor_data];
    split_and!; try done; rewrite <- ?app_assoc;
    eexists; split_and!; try reflexivity; try done; cbv; lia.
Qed.

Lemma generate_eq (s : TorIpRotator) (w : World) :
  __generate_new_tor_ip (s, w) =
  match __renew_tor_circuit (s, w) with
  | (Ok _, (s1, w1)) =>
      match ip_service_url s1 with
      | Some url => make_request_through_tor url (s1, w1)
      | None => (Raise (TypeError "Invalid type for url."), (s1, w1))
      end
  | (Raise e, st) => (Raise e, st)
  end.
Proof.
  unfold __generate_new_tor_ip, __check_tor_ip, url_argument,
    bind at 1 2 3, get_self.
  destruct (__renew_tor_circuit (s, w)) as [[[]|e] [s1 w1]]; [|reflexivity].
  cbn [fst snd]. destruct (ip_service_url s1); reflexivity.
Qed.

(** * The loop of [rotate_ip] *)

Lemma generate_frame (s : TorIpRotator) (w : World) r s' w' :
  __generate_new_tor_ip (s, w) = (r, (s', w')) →
  same_config s s' ∧ used_ips s' = used_ips s ∧
  ctl_seq w' = S (ctl_seq w) ∧
  ∃ l, world_frame w w' l ∧ (signals l ≤ 1)%nat.
Proof.
  rewrite generate_eq.
  destruct (__renew_tor_circuit (s, w)) as [r1 [s1 w1]] eqn:Hr.
  apply renew_frame in Hr as (Hc & Hu & Hh & Hs & l & Hw & Hl & _ & _).
  destruct r1 as [[]|e].
  - destruct (ip_service_url s1) as [url|].
    + rewrite make_request_through_tor_eq. intros [= <- <- <-].
      split_and!; try done.
      exists (l ++ [HttpGet (ViaClient (tor_mount_ip s1)) url])%list. split.
      * eapply world_frame_trans; [exact Hw|]. by unfold world_frame, after_get.
      * rewrite signals_app.
        change (signals [HttpGet (ViaClient (tor_mount_ip s1)) url]) with 0%nat. lia.
    + intros [= <- <- <-]. split_and!; try done. by exists l.
  - intros [= <- <- <-]. split_and!; try done. by exists l.
Qed.

Lemma attempt_spec (u pm : bool) (s : TorIpRotator) (w : World) r s' w' :
  rotate_ip_attempt u pm (s, w) = (r, (s', w')) →
  same_config s s' ∧ ctl_seq w' = S (ctl_seq w) ∧
  (∃ l, world_frame w w' l ∧ (signals l ≤ 1)%nat) ∧
  match r with
  | Ok (Some a) =>
      used_ips s' = (used_ips s ++ [a])%list ∧
      (pm = true → Some a ≠ local_ip s) ∧
      (u = true → a ∉ used_ips s)
  | _ => used_ips s' = used_ips s
  end.
Proof.
  unfold rotate_ip_attempt, bind at 1.
  destruct (__generate_new_tor_ip (s, w)) as [r1 [s1 w1]] eqn:Hg.
  apply generate_frame in Hg as (Hc & Hu & Hs & Hl).
  destruct r1 as [a|e]; [|intros [= <- <- <-]; done].
  unfold bind at 1, get_self. cbn [fst snd].
  assert (Hloc : local_ip s1 = local_ip s) by apply Hc.
  destruct (pm && bool_decide (Some a = local_ip s1)) eqn:Hpm.
  { intros [= <- <- <-]. done. }
  destruct (u && bool_decide (a ∈ used_ips s1)) eqn:Hun.
  { destruct (_ >=? _); intros [= <- <- <-]; done. }
  unfold bind, modify_self, ret. cbn [fst snd]. intros [= <- <- <-].
  split; [apply (same_config_trans _ _ _ Hc); by unfold same_config|].
  split; [done|]. split; [done|].
  cbn [used_ips set_used_ips]. split; [by rewrite Hu|]. split.
  - intros ->. cbn in Hpm. apply bool_decide_eq_false in Hpm. congruence.
  - intros ->. cbn in Hun. apply bool_decide_eq_false in Hun. congruence.
Qed.

Lemma loop_spec (u pm : bool) (e : exn) (n : nat) :
  ∀ (s : TorIpRotator) (w : World) r s' w',
  for_range n (rotate_ip_attempt u pm) (raise e) (s, w) = (r, (s', w')) →
  same_config s s' ∧ (ctl_seq w' ≤ ctl_seq w + n)%nat ∧
  (∃ l, world_frame w w' l ∧ (signals l ≤ n)%nat) ∧
  match r with
  | Ok a =>
      used_ips s' = (used_ips s ++ [a])%list ∧
      (pm = true → Some a ≠ local_ip s) ∧
      (u = true → a ∉ used_ips s)
  | Raise _ => used_ips s' = used_ips s
  end.
Proof.
  induction n as [|n IH]; intros s w r s' w'.
  - cbn. intros [= <- <- <-].
    split; [apply same_config_refl|]. split; [lia|]. split; [|done].
    exists []. split; [apply world_frame_refl|done].
  - cbn [for_range]. unfold bind at 1.
    destruct (rotate_ip_attempt u pm (s, w)) as [r1 [s1 w1]] eqn:Ha.
    apply attempt_spec in Ha as (Hc & Hs & (l & Hw & Hl) & Hr).
    destruct r1 as [[a|]|e1].
    + intros [= <- <- <-].
      split; [done|]. split; [lia|]. split; [|done].
      exists l. split; [done|lia].
    + intros (Hc' & Hs' & (l' & Hw' & Hl') & Hr')%IH.
      assert (Hloc : local_ip s1 = local_ip s) by apply Hc.
      split; [eapply same_config_trans; eauto|]. split; [lia|]. split.
      * exists (l ++ l')%list. split; [eapply world_frame_trans; eauto|].
        rewrite signals_app. lia.
      * destruct r; by rewrite <- ?Hr, <- ?Hloc.
    + intros [= <- <- <-].
      split; [done|]. split; [lia|]. split; [|done].
      exists l. split; [done|lia].
Qed.

Lemma rotate_ip_unfold (u pm : bool) (s : TorIpRotator) (w : World) :
  rotate_ip u pm (s, w) =
  for_range (Z.to_nat (max_rotations s)) (rotate_ip_attempt u pm)
    (raise (RuntimeError max_rotations_msg)) (s, w).
Proof. reflexivity. Qed.

Lemma attempt_reads_inv (s : TorIpRotator) (w : World) (i : nat) (a : string) :
  attempt_reads s w i a = true →
  session_succeeds (ctl_oracle w (ctl_seq w + i)%nat) = true ∧
  ∃ url status,
    ip_service_url s = Some url ∧
    http_oracle w (http_seq w + i)%nat (ViaClient (tor_mount_ip s)) url
      = Response status a ∧
    is_success status = true.
Proof.
  unfold attempt_reads. rewrite andb_true_iff. intros [Hs H]. split; [done|].
  destruct (ip_service_url s) as [url|]; [|done].
  destruct (http_oracle _ _ _ _) as [status text|] eqn:Hr; [|done].
  apply andb_true_iff in H as [H1 H2%bool_decide_eq_true]. subst.
  by exists url, status.
Qed.

Lemma generate_reads (s : TorIpRotator) (w : World) (a : string) :
  attempt_reads s w 0 a = true →
  ∃ url, ip_service_url s = Some url ∧
         __generate_new_tor_ip (s, w) = (Ok a, probed s w url).
Proof.
  intros (Hs & url & status & Hurl & Hr & Hok)%attempt_reads_inv.
  rewrite Nat.add_0_r in Hs, Hr.
  exists url. split; [done|].
  rewrite generate_eq, (renew_ok _ _ Hs). unfold renewed at 1.
  cbn [ip_service_url set_tor_data]. rewrite Hurl.
  rewrite make_request_through_tor_eq. unfold probed, renewed.
  cbn [fst snd tor_mount_ip set_tor_data http_oracle http_seq log_call next_ctl].
  rewrite Hr. cbn [tor_request_outcome]. by rewrite Hok.
Qed.

Lemma attempt_reads_probed (s : TorIpRotator) (w : World) (url : string)
    (i : nat) (a : string) :
  attempt_reads s w (S i) a = true →
  attempt_reads (probed s w url).1 (probed s w url).2 i a = true.
Proof.
  unfold attempt_reads, probed, renewed, after_get.
  cbn [fst snd tor_mount_ip ip_service_url set_tor_data http_oracle ctl_oracle
       http_seq ctl_seq log_call next_ctl next_http].
  by rewrite !Nat.add_succ_r.
Qed.

Lemma probed_signals (s : TorIpRotator) (w : World) (url : string) :
  signals (log (probed s w url).2) = S (signals (log w)).
Proof.
  unfold probed, renewed, after_get.
  cbn [fst snd log log_call next_ctl next_http].
  rewrite !signals_app. cbn [signals List.filter is_signal length]. lia.
Qed.

Lemma attempt_rejects_baseline (u : bool) (s : TorIpRotator) (w : World)
    (b : string) :
  attempt_reads s w 0 b = true → Some b = local_ip s →
  ∃ url, rotate_ip_attempt u true (s, w) = (Ok None, probed s w url).
Proof.
  intros (url & Hurl & Hg)%generate_reads Hb. exists url.
  unfold rotate_ip_attempt, bind at 1. rewrite Hg.
  unfold bind at 1, get_self, probed, renewed.
  cbn [fst snd local_ip set_tor_data andb].
  by rewrite bool_decide_eq_true_2.
Qed.

Lemma attempt_accepts (u pm : bool) (s : TorIpRotator) (w : World)
    (a : string) :
  attempt_reads s w 0 a = true →
  pm = false ∨ Some a ≠ local_ip s →
  u = false ∨ a ∉ used_ips s →
  ∃ url,
    rotate_ip_attempt u pm (s, w) =
    (Ok (Some a),
     (set_used_ips (used_ips s ++ [a]) (probed s w url).1,
      (probed s w url).2)).
Proof.
  intros (url & Hurl & Hg)%generate_reads Hpm Hu. exists url.
  unfold rotate_ip_attempt, bind at 1. rewrite Hg.
  unfold bind at 1, get_self, probed, renewed.
  cbn [fst snd local_ip used_ips set_tor_data].
  replace (pm && bool_decide (Some a = local_ip s)) with false; cycle 1.
  { destruct Hpm as [->|Hne]; [done|].
    by rewrite bool_decide_eq_false_2, andb_false_r. }
  replace (u && bool_decide (a ∈ used_ips s)) with false; cycle 1.
  { destruct Hu as [->|Hne]; [done|].
    by rewrite bool_decide_eq_false_2, andb_false_r. }
  reflexivity.
Qed.

Lemma loop_skips_baseline (u : bool) (after : M TorIpRotator string) (k : nat) :
  ∀ (n : nat) (s : TorIpRotator) (w : World) (a : string),
  (k < n)%nat →
  (∀ i, (i < k)%nat →
        ∃ b, attempt_reads s w i b = true ∧ Some b = local_ip s) →
  attempt_reads s w k a = true →
  Some a ≠ local_ip s →
  u = false ∨ a ∉ used_ips s →
  ∃ s' w',
    for_range n (rotate_ip_attempt u true) after (s, w) = (Ok a, (s', w')) ∧
    used_ips s' = (used_ips s ++ [a])%list ∧
    tor_ip s' = tor_ip s ∧
    signals (log w') = (signals (log w) + S k)%nat.
Proof.
  induction k as [|k IH]; intros n s w a Hn Hb Ha Hne Hu.
  - destruct n as [|n]; [lia|].
    destruct (attempt_accepts u true s w a Ha (or_intror Hne) Hu)
      as (url & Heq).
    eexists _, _. cbn [for_range]. unfold bind at 1. rewrite Heq.
    split; [reflexivity|]. split; [done|]. split; [done|].
    cbn [snd]. rewrite probed_signals. lia.
  - destruct n as [|n]; [lia|].
    destruct (Hb 0%nat) as (b & Hb0 & Hloc); [lia|].
    destruct (attempt_rejects_baseline u s w b Hb0 Hloc) as (url & Heq).
    destruct (IH n (probed s w url).1 (probed s w url).2 a) as
      (s' & w' & Hrun & Hus & Htor & Hsig).
    + lia.
    + intros i Hi. destruct (Hb (S i)) as (b' & Hb' & Hloc'); [lia|].
      exists b'. split; [by apply attempt_reads_probed|done].
    + by apply attempt_reads_probed.
    + done.
    + done.
    + exists s', w'. cbn [for_range]. unfold bind at 1. rewrite Heq.
      rewrite <- surjective_pairing in Hrun.
      split; [exact Hrun|]. split; [exact Hus|]. split; [exact Htor|].
      rewrite Hsig, probed_signals. lia.
Qed.

Lemma loop_rejected (u pm : bool) (after : M TorIpRotator string) (n : nat) :
  ∀ st st',
  rejected_attempts n u pm st = Some st' →
  for_range n (rotate_ip_attempt u pm) after st = after st'.
Proof.
  induction n as [|n IH]; intros st st'; cbn [rejected_attempts for_range].
  - by intros [= ->].
  - unfold bind at 1.
    destruct (rotate_ip_attempt u pm st) as [[[a|]|e] st1]; try done.
    apply IH.
Qed.

Lemma rotate_ip_spec (u pm : bool) (s : TorIpRotator) (w : World) r s' w' :
  rotate_ip u pm (s, w) = (r, (s', w')) →
  same_config s s' ∧
  (ctl_seq w' ≤ ctl_seq w + Z.to_nat (max_rotations s))%nat ∧
  (∃ l, world_frame w w' l ∧ (signals l ≤ Z.to_nat (max_rotations s))%nat) ∧
  match r with
  | Ok a =>
      used_ips s' = (used_ips s ++ [a])%list ∧
      (pm = true → Some a ≠ local_ip s) ∧
      (u = true → a ∉ used_ips s)
  | Raise _ => used_ips s' = used_ips s
  end.
Proof. rewrite rotate_ip_unfold. apply loop_spec. Qed.

Lemma calls_baseline (us : list bool) :
  ∀ (s : TorIpRotator) (w : World) rs s' w',
  rotate_ip_calls (map (fun u => (u, true)) us) (s, w) = (rs, (s', w')) →
  same_config s s' ∧
  used_ips s' = (used_ips s ++ accepted rs)%list ∧
  Forall (fun a => Some a ≠ local_ip s) (accepted rs).
Proof.
  induction us as [|u us IH]; intros s w rs s' w'; cbn [map rotate_ip_calls].
  - intros [= <- <- <-]. split; [apply same_config_refl|].
    cbn. by rewrite app_nil_r.
  - destruct (rotate_ip u true (s, w)) as [r [s1 w1]] eqn:Hr.
    destruct (rotate_ip_calls _ (s1, w1)) as [rs1 [s2 w2]] eqn:Hrs.
    intros [= <- <- <-].
    apply rotate_ip_spec in Hr as (Hc & _ & _ & Hr).
    apply IH in Hrs as (Hc' & Hu' & Hall).
    assert (Hloc : local_ip s1 = local_ip s) by apply Hc.
    rewrite Hloc in Hall.
    split; [eapply same_config_trans; eauto|].
    destruct r as [a|e]; cbn [accepted omap].
    + destruct Hr as (Hu & Hb & _). fold (accepted rs1).
      rewrite Hu', Hu, <- app_assoc. split; [done|].
      constructor; [by apply Hb|done].
    + fold (accepted rs1). by rewrite Hu', Hr.
Qed.

Lemma calls_unique_fresh (pms : list bool) :
  ∀ (s : TorIpRotator) (w : World) rs s' w',
  rotate_ip_calls (map (fun pm => (true, pm)) pms) (s, w) = (rs, (s', w')) →
  used_ips s' = (used_ips s ++ accepted rs)%list ∧
  NoDup (accepted rs) ∧
  Forall (fun a => a ∉ used_ips s) (accepted rs).
Proof.
  induction pms as [|pm pms IH]; intros s w rs s' w'; cbn [map rotate_ip_calls].
  - intros [= <- <- <-]. cbn. rewrite app_nil_r.
    split; [done|]. split; [apply NoDup_nil_2|done].
  - destruct (rotate_ip true pm (s, w)) as [r [s1 w1]] eqn:Hr.
    destruct (rotate_ip_calls _ (s1, w1)) as [rs1 [s2 w2]] eqn:Hrs.
    intros [= <- <- <-].
    apply rotate_ip_spec in Hr as (_ & _ & _ & Hr).
    apply IH in Hrs as (Hu' & Hnd & Hfresh).
    destruct r as [a|e]; cbn [accepted omap]; fold (accepted rs1).
    + destruct Hr as (Hu & _ & Hnew). rewrite Hu in Hfresh, Hu'.
      split; [by rewrite Hu', <- app_assoc|].
      rewrite Forall_forall in Hfresh. split.
      * apply NoDup_cons. split; [|done].
        intros Hin. apply (Hfresh _ Hin), elem_of_app. right.
        by apply list_elem_of_singleton.
      * constructor; [by apply Hnew|].
        apply Forall_forall. intros x Hx Hin.
        apply (Hfresh _ Hx), elem_of_app. by left.
    + rewrite Hr in Hfresh, Hu'. done.
Qed.

Lemma rejected_frame (u pm : bool) (k : nat) :
  ∀ (s : TorIpRotator) (w : World) s1 w1,
  rejected_attempts k u pm (s, w) = Some (s1, w1) →
  same_config s s1 ∧ used_ips s1 = used_ips s.
Proof.
  induction k as [|k IH]; intros s w s1 w1; cbn [rejected_attempts].
  - intros [= <- <-]. split; [apply same_config_refl|done].
  - destruct (rotate_ip_attempt u pm (s, w)) as [r [s2 w2]] eqn:Ha.
    apply attempt_spec in Ha as (Hc & _ & _ & Hr).
    destruct r as [[a|]|e]; try done.
    intros (Hc' & Hu')%IH. split; [eapply same_config_trans; eauto|].
    by rewrite Hu'.
Qed.

Lemma loop_after_rejected (u pm : bool) (after : M TorIpRotator string)
    (k : nat) :
  ∀ (n : nat) st st1,
  rejected_attempts k u pm st = Some st1 →
  for_range (k + n) (rotate_ip_attempt u pm) after st =
  for_range n (rotate_ip_attempt u pm) after st1.
Proof.
  induction k as [|k IH]; intros n st st1; cbn [rejected_attempts].
  - by intros [= ->].
  - cbn [Nat.add for_range]. unfold bind at 1.
    destruct (rotate_ip_attempt u pm st) as [[[a|]|e] st2]; try done.
    apply IH.
Qed.

Lemma attempt_exhausted (pm : bool) (s : TorIpRotator) (w : World)
    (a : string) :
  attempt_reads s w 0 a = true →
  pm = false ∨ Some a ≠ local_ip s →
  a ∈ used_ips s →
  max_rotations s <= Z.of_nat (length (used_ips s)) →
  ∃ url,
    rotate_ip_attempt true pm (s, w) =
    (Raise (RuntimeError exhausted_msg), probed s w url).
Proof.
  intros (url & Hurl & Hg)%generate_reads Hpm Hin Hlen. exists url.
  unfold rotate_ip_attempt, bind at 1. rewrite Hg.
  unfold bind at 1, get_self, probed, renewed.
  cbn [fst snd local_ip used_ips max_rotations set_tor_data].
  replace (pm && bool_decide (Some a = local_ip s)) with false; cycle 1.
  { destruct Hpm as [->|Hne]; [done|].
    by rewrite bool_decide_eq_false_2, andb_false_r. }
  rewrite bool_decide_eq_true_2 by done. cbn [andb].
  replace (Z.of_nat (length (used_ips s)) >=? max_rotations s) with true;
    [reflexivity|].
  symmetry. rewrite Z.geb_leb. by apply Z.leb_le.
Qed.

(** ** The constructor *)

Lemma new_probes (env : Environ) (kw : kwargs) (w : World) (url : string) :
  truthy (PASSWORD env) = true →
  truthy (SERVICE_URL env) = true →
  SERVICE_URL env = Some url →
  let r := constructor_route kw in
  let w1 := after_get Direct url w in
  let w2 := after_get r url w1 in
  new env kw w =
  match direct_request_outcome url (http_oracle w (http_seq w) Direct url) with
  | Raise e => (Raise e, w1)
  | Ok a =>
      match tor_request_outcome url (http_oracle w (S (http_seq w)) r url) with
      | Raise e => (Raise e, w2)
      | Ok b =>
          match HTTPTransport_error env (SOCKET env) with
          | Some e => (Raise e, w2)
          | None =>
              (Ok (set_tor_mount_ip
                     (<["http://" := HTTPTransport (SOCKET env)]>
                        (<["https://" := HTTPTransport (SOCKET env)]> ∅))
                     (set_tor_ip (Some b)
                        (set_local_ip (Some a) (BaseModel_init env kw)))),
               w2)
          end
      end
  end.
Proof.
  intros Hpw Hurl Hsome r w1 w2. unfold new, __init__, bind at 1, get_self.
  cbn [fst snd _tor_password ip_service_url BaseModel_init].
  rewrite Hpw, Hurl. cbn [negb]. unfold bind at 1.
  rewrite (check_local_ip_eq url) by done.
  destruct (direct_request_outcome _ _) as [a|e]; [|reflexivity].
  unfold bind at 1, modify_self at 1. cbn [fst snd].
  unfold bind at 1, __check_tor_ip, bind at 1, get_self.
  cbn [fst snd ip_service_url set_local_ip BaseModel_init].
  rewrite Hsome. unfold url_argument, bind at 1, ret. cbn [fst snd].
  rewrite make_request_through_tor_eq.
  cbn [tor_mount_ip set_local_ip BaseModel_init http_oracle http_seq after_get
       next_http log_call].
  fold (constructor_route kw). fold r.
  destruct (tor_request_outcome _ _) as [b|e]; [|reflexivity].
  unfold bind at 1, modify_self at 1. cbn [fst snd].
  unfold bind at 1, httpx_HTTPTransport.
  destruct (HTTPTransport_error env (SOCKET env)) as [e|]; reflexivity.
Qed.

(** X17. With no [tor_mount_ip] keyword the constructor's second probe goes
    through a client without mounts, and the transports of the SOCKS proxy
    are mounted only after it. *)
Remark new_probes_with_initial_mounts (env : Environ) (w : World)
    (url : string) (self : TorIpRotator) (w' : World) :
  truthy (PASSWORD env) = true →
  truthy (SERVICE_URL env) = true →
  SERVICE_URL env = Some url →
  new env no_kwargs w = (Ok self, w') →
  log w' = (log w ++ [HttpGet Direct url; HttpGet (ViaClient ∅) url])%list ∧
  tor_mount_ip self =
    <["http://" := HTTPTransport (SOCKET env)]>
      (<["https://" := HTTPTransport (SOCKET env)]> ∅).
Proof.
  intros Hpw Hurl Hsome. rewrite (new_probes env no_kwargs w url Hpw Hurl Hsome).
  cbn zeta. destruct (direct_request_outcome _ _) as [a|e]; [|done].
  destruct (tor_request_outcome _ _) as [b|e]; [|done].
  destruct (HTTPTransport_error env (SOCKET env)) as [e|]; [done|].
  intros [= <- <-]. split; [|reflexivity].
  unfold after_get. cbn [log log_call next_http]. by rewrite <- app_assoc.
Qed.

(** * The claims *)

(** C1 (as amended). For every successful call to [rotate_ip], the
    returned address is appended exactly once to [used_ips], of which it
    is the last element afterwards; the call leaves [tor_ip] as it was. *)
Theorem C1_rotate_appends_once (u pm : bool) (s : TorIpRotator) (w : World)
    (a : string) (s' : TorIpRotator) (w' : World) :
  rotate_ip u pm (s, w) = (Ok a, (s', w')) →
  used_ips s' = (used_ips s ++ [a])%list ∧
  last (used_ips s') = Some a ∧
  tor_ip s' = tor_ip s.
Proof.
  intros (Hc & _ & _ & Hu & _)%rotate_ip_spec.
  split; [done|]. split; [by rewrite Hu, last_snoc|apply Hc].
Qed.

Lemma C1_rotate_appends_once_witness :
  let st := (test_rotator "9.9.9.9" "5.5.5.5" 10 ["7.7.7.7"],
             scripted [Response 200 "1.2.3.4"]) in
  let st' := (rotate_ip false true st).2 in
  rotate_ip false true st = (Ok "1.2.3.4", st') ∧
  used_ips st'.1 = ["7.7.7.7"; "1.2.3.4"] ∧
  last (used_ips st'.1) = Some "1.2.3.4" ∧
  tor_ip st'.1 = Some "5.5.5.5".
Proof.
  intros st st'.
  assert (H : rotate_ip false true (st.1, st.2) = (Ok "1.2.3.4", (st'.1, st'.2)))
    by (vm_compute; reflexivity).
  split; [exact H|].
  exact (C1_rotate_appends_once false true _ _ _ _ _ H).
Defined.

(** C1 as stated fails: after a successful rotation [tor_ip] still holds
    the address read by the constructor, not the returned one. *)
Lemma C1_counterexample :
  ∃ s w s' w',
    new test_env no_kwargs
      (scripted [Response 200 "9.9.9.9"; Response 200 "5.5.5.5";
                 Response 200 "1.2.3.4"]) = (Ok s, w) ∧
    rotate_ip false true (s, w) = (Ok "1.2.3.4", (s', w')) ∧
    last (used_ips s') = Some "1.2.3.4" ∧
    tor_ip s' = Some "5.5.5.5" ∧
    tor_ip s' ≠ Some "1.2.3.4".
Proof.
  eexists _, _, _, _.
  split; [vm_compute; reflexivity|].
  split; [vm_compute; reflexivity|].
  split; [reflexivity|]. split; [reflexivity|]. discriminate.
Qed.

(** C2 (as amended). A construction whose configuration is present makes
    its probes in this order: the direct GET of the service URL, whose
    2xx text becomes [local_ip], then one GET through a client, whose 2xx
    text becomes [tor_ip]; these two GETs are the only calls of a
    successful construction. A failure of the direct probe is raised as
    it is (the [httpx] transport error, or the status error of a non-2xx),
    a transport failure of the second probe is raised wrapped in a
    [RuntimeError], and construction fails whenever a probe does. After
    two successful probes the construction succeeds when [httpx] builds
    the transports for the SOCKET address, and raises the error of
    [httpx.HTTPTransport] when it does not. *)
Theorem C2_construction_probes (env : Environ) (kw : kwargs) (w : World)
    (url : string) :
  truthy (PASSWORD env) = true →
  truthy (SERVICE_URL env) = true →
  SERVICE_URL env = Some url →
  ∃ r : route,
    let w1 := after_get Direct url w in
    let w2 := after_get r url w1 in
    match http_oracle w (http_seq w) Direct url with
    | TransportFailure msg => new env kw w = (Raise (RequestError msg), w1)
    | Response status1 a =>
        if is_success status1 then
          match http_oracle w (S (http_seq w)) r url with
          | TransportFailure msg =>
              new env kw w =
              (Raise (RuntimeError
                        ("Failed to make a request through Tor: " +:+ msg)),
               w2)
          | Response status2 b =>
              if is_success status2 then
                match HTTPTransport_error env (SOCKET env) with
                | None =>
                    ∃ self, new env kw w = (Ok self, w2) ∧
                            local_ip self = Some a ∧ tor_ip self = Some b
                | Some e => new env kw w = (Raise e, w2)
                end
              else ∃ e, new env kw w = (Raise e, w2)
          end
        else new env kw w = (Raise (HTTPStatusError status1 url), w1)
    end.
Proof.
  intros Hpw Hurl Hsome. exists (constructor_route kw). cbn zeta.
  rewrite (new_probes env kw w url Hpw Hurl Hsome). cbn zeta.
  destruct (http_oracle w (http_seq w) Direct url) as [status1 a|msg];
    cbn [direct_request_outcome]; [|reflexivity].
  destruct (is_success status1); [|reflexivity].
  destruct (http_oracle w (S (http_seq w)) (constructor_route kw) url)
    as [status2 b|msg]; cbn [tor_request_outcome]; [|reflexivity].
  destruct (is_success status2); [|by eexists].
  destruct (HTTPTransport_error env (SOCKET env)) as [e|]; [reflexivity|].
  eexists. split; [reflexivity|]. done.
Qed.

Lemma C2_construction_probes_witness :
  let w := scripted [Response 200 "9.9.9.9"; Response 200 "5.5.5.5"] in
  truthy (PASSWORD test_env) = true ∧
  truthy (SERVICE_URL test_env) = true ∧
  SERVICE_URL test_env = Some test_url ∧
  (∃ r self,
     new test_env no_kwargs w =
       (Ok self, after_get r test_url (after_get Direct test_url w)) ∧
     local_ip self = Some "9.9.9.9" ∧ tor_ip self = Some "5.5.5.5") ∧
  (∃ r,
     new test_env_without_scheme no_kwargs w =
       (Raise (ValueError "Unknown scheme for proxy URL"),
        after_get r test_url (after_get Direct test_url w))).
Proof.
  intros w. split; [reflexivity|]. split; [reflexivity|]. split; [reflexivity|].
  split.
  - destruct (C2_construction_probes test_env no_kwargs w test_url
                eq_refl eq_refl eq_refl) as [r H].
    exists r. exact H.
  - destruct (C2_construction_probes test_env_without_scheme no_kwargs w
                test_url eq_refl eq_refl eq_refl) as [r H].
    exists r. exact H.
Defined.

(** C2 as stated fails: when the direct probe cannot connect, construction
    raises the bare transport error of [httpx], not an error wrapping it. *)
Lemma C2_counterexample :
  ∃ e w',
    new test_env no_kwargs (scripted [TransportFailure "Connection refused"])
      = (Raise e, w') ∧
    e = RequestError "Connection refused" ∧
    ¬ wraps e "Connection refused".
Proof.
  eexists _, _. split; [vm_compute; reflexivity|]. split; [reflexivity|].
  intros [prefix H]. discriminate H.
Qed.

(** C3 (as amended). With [unique=True] on an object whose history has
    reached [max_rotations], the call fails with "All possible IPs have
    been exhausted." at the first attempt whose address passes the
    baseline check and is already in the history, leaving the history as
    it was (an address that is not in the history is still accepted);
    and over any sequence of calls all made with [unique=True], the
    addresses accepted are pairwise distinct and distinct from those the
    history held before. *)
Theorem C3_unique_rotation :
  (∀ (pm : bool) (s : TorIpRotator) (w : World) (k : nat)
     (s1 : TorIpRotator) (w1 : World) (a : string),
      max_rotations s <= Z.of_nat (length (used_ips s)) →
      (k < Z.to_nat (max_rotations s))%nat →
      rejected_attempts k true pm (s, w) = Some (s1, w1) →
      attempt_reads s1 w1 0 a = true →
      pm = false ∨ Some a ≠ local_ip s →
      a ∈ used_ips s →
      ∃ s' w',
        rotate_ip true pm (s, w) =
          (Raise (RuntimeError exhausted_msg), (s', w')) ∧
        used_ips s' = used_ips s) ∧
  (∀ (pms : list bool) (s : TorIpRotator) (w : World),
      let '(rs, (s', _)) :=
        rotate_ip_calls (map (fun pm => (true, pm)) pms) (s, w) in
      used_ips s' = (used_ips s ++ accepted rs)%list ∧
      NoDup (accepted rs) ∧
      Forall (fun a => a ∉ used_ips s) (accepted rs)).
Proof.
  split.
  - intros pm s w k s1 w1 a Hlen Hk Hrej Ha Hpm Hin.
    destruct (rejected_frame _ _ _ _ _ _ _ Hrej) as [Hc Hu].
    assert (Hloc : local_ip s1 = local_ip s) by apply Hc.
    assert (Hmax : max_rotations s1 = max_rotations s) by apply Hc.
    destruct (attempt_exhausted pm s1 w1 a Ha) as (url & Hraise).
    { by rewrite Hloc. } { by rewrite Hu. } { by rewrite Hmax, Hu. }
    exists (probed s1 w1 url).1, (probed s1 w1 url).2.
    rewrite rotate_ip_unfold.
    replace (Z.to_nat (max_rotations s))
      with (k + S (Z.to_nat (max_rotations s) - S k))%nat by lia.
    rewrite (loop_after_rejected _ _ _ _ _ _ _ Hrej).
    cbn [for_range]. unfold bind at 1. rewrite Hraise.
    split; [by rewrite <- surjective_pairing|].
    unfold probed, renewed. cbn [fst used_ips set_tor_data]. exact Hu.
  - intros pms s w.
    destruct (rotate_ip_calls _ (s, w)) as [rs [s' w']] eqn:Hrun.
    exact (calls_unique_fresh _ _ _ _ _ _ Hrun).
Qed.

Lemma C3_unique_rotation_witness :
  let s := test_rotator "9.9.9.9" "5.5.5.5" 2 ["1.1.1.1"; "2.2.2.2"] in
  let w := scripted [Response 200 "9.9.9.9"; Response 200 "1.1.1.1"] in
  max_rotations s <= Z.of_nat (length (used_ips s)) ∧
  ∃ s' w',
    rotate_ip true true (s, w) =
      (Raise (RuntimeError exhausted_msg), (s', w')) ∧
    used_ips s' = used_ips s.
Proof.
  intros s w. split; [vm_compute; discriminate|].
  pose (st1 := default (s, w) (rejected_attempts 1 true true (s, w))).
  apply (proj1 C3_unique_rotation true s w 1%nat st1.1 st1.2 "1.1.1.1").
  - vm_compute. discriminate.
  - vm_compute. lia.
  - vm_compute. reflexivity.
  - vm_compute. reflexivity.
  - right. discriminate.
  - apply list_elem_of_here.
Defined.

(** C3 as stated fails: with a history of length [max_rotations] a fresh
    address is still accepted by a [unique=True] call. *)
Lemma C3_counterexample :
  let s := test_rotator "9.9.9.9" "5.5.5.5" 1 ["1.1.1.1"] in
  let w := scripted [Response 200 "2.2.2.2"] in
  Z.of_nat (length (used_ips s)) = max_rotations s ∧
  ∃ s' w',
    rotate_ip true true (s, w) = (Ok "2.2.2.2", (s', w')) ∧
    used_ips s' = ["1.1.1.1"; "2.2.2.2"].
Proof.
  intros s w. split; [reflexivity|].
  eexists _, _. split; [vm_compute; reflexivity|reflexivity].
Qed.

(** C4: [make_request_through_tor] on a reply whose status is not 2xx
    raises the [HTTPStatusError] of [raise_for_status] as it is: the
    [except httpx.RequestError] clause does not catch it, so the error is
    not the wrapping [RuntimeError] that a transport failure gets. *)
Theorem C4_status_error_not_wrapped (url : string) (s : TorIpRotator)
    (w : World) (status : Z) (text : string) :
  http_oracle w (http_seq w) (ViaClient (tor_mount_ip s)) url
    = Response status text →
  is_success status = false →
  make_request_through_tor url (s, w) =
    (Raise (HTTPStatusError status url),
     (s, after_get (ViaClient (tor_mount_ip s)) url w)) ∧
  ∀ cause, ¬ wraps (HTTPStatusError status url) cause.
Proof.
  intros Hr Hs. rewrite make_request_through_tor_eq, Hr.
  cbn [tor_request_outcome]. rewrite Hs. split; [reflexivity|].
  intros cause [prefix H]. discriminate H.
Qed.

Lemma C4_status_error_not_wrapped_witness :
  let s := test_rotator "9.9.9.9" "5.5.5.5" 10 [] in
  let w := scripted [Response 404 "Not Found"] in
  is_success 404 = false ∧
  make_request_through_tor test_url (s, w) =
    (Raise (HTTPStatusError 404 test_url),
     (s, after_get (ViaClient (tor_mount_ip s)) test_url w)).
Proof.
  intros s w. split; [reflexivity|].
  exact (proj1 (C4_status_error_not_wrapped test_url s w 404 "Not Found"
                  eq_refl eq_refl)).
Defined.

(** C5. A call to [rotate_ip] sends at most [max_rotations] NEWNYM
    signals, and when [max_rotations] iterations in a row end in
    [continue] the call raises "Max IP rotations reached. Failed to get a
    unique new IP.". *)
Theorem C5_bounded_renewals (u pm : bool) (s : TorIpRotator) (w : World) :
  (∃ l : list call,
      log (rotate_ip u pm (s, w)).2.2 = (log w ++ l)%list ∧
      (signals l ≤ Z.to_nat (max_rotations s))%nat) ∧
  (∀ st',
      rejected_attempts (Z.to_nat (max_rotations s)) u pm (s, w) = Some st' →
      rotate_ip u pm (s, w) = (Raise (RuntimeError max_rotations_msg), st')).
Proof.
  split.
  - destruct (rotate_ip u pm (s, w)) as [r [s' w']] eqn:Hrun.
    apply rotate_ip_spec in Hrun as (_ & _ & (l & Hw & Hl) & _).
    exists l. split; [apply Hw|done].
  - intros st' Hrej. rewrite rotate_ip_unfold.
    by rewrite (loop_rejected _ _ _ _ _ _ Hrej).
Qed.

Lemma C5_bounded_renewals_witness :
  let s := test_rotator "9.9.9.9" "5.5.5.5" 2 [] in
  let w := scripted [Response 200 "9.9.9.9"; Response 200 "9.9.9.9"] in
  ∃ st',
    rejected_attempts 2 false true (s, w) = Some st' ∧
    rotate_ip false true (s, w) = (Raise (RuntimeError max_rotations_msg), st') ∧
    signals (log st'.2) = 2%nat.
Proof.
  intros s w.
  exists (default (s, w) (rejected_attempts 2 false true (s, w))).
  assert (H : rejected_attempts (Z.to_nat (max_rotations s)) false true (s, w)
              = Some (default (s, w) (rejected_attempts 2 false true (s, w))))
    by (vm_compute; reflexivity).
  split; [exact H|]. split; [|vm_compute; reflexivity].
  exact (proj2 (C5_bounded_renewals false true s w) _ H).
Defined.

(** C6. Over any sequence of [rotate_ip] calls made with
    [prevent_ips_match=True], [local_ip] does not change and no address
    returned and appended to the history equals it. *)
Theorem C6_baseline_never_accepted (us : list bool) (s : TorIpRotator)
    (w : World) :
  let '(rs, (s', _)) :=
    rotate_ip_calls (map (fun u => (u, true)) us) (s, w) in
  local_ip s' = local_ip s ∧
  used_ips s' = (used_ips s ++ accepted rs)%list ∧
  Forall (fun a => Some a ≠ local_ip s) (accepted rs).
Proof.
  destruct (rotate_ip_calls _ (s, w)) as [rs [s' w']] eqn:Hrun.
  apply calls_baseline in Hrun as (Hc & Hu & Hall).
  split; [apply Hc|done].
Qed.

(** C7. When the password or the service URL is missing or empty, the
    constructor raises [ValueError] and the world is untouched: no call
    was made to the control port or to the network. *)
Theorem C7_configuration_checked_first (env : Environ) (kw : kwargs)
    (w : World) :
  truthy (PASSWORD env) = false ∨ truthy (SERVICE_URL env) = false →
  ∃ msg, new env kw w = (Raise (ValueError msg), w).
Proof.
  intros Hmissing. unfold new, __init__, bind at 1, get_self.
  cbn [fst snd _tor_password ip_service_url BaseModel_init].
  destruct (truthy (PASSWORD env)); cbn [negb]; [|by eexists].
  destruct Hmissing as [Hpw|Hurl]; [done|]. rewrite Hurl. by eexists.
Qed.

Lemma C7_configuration_checked_first_witness :
  let env := {| PORT := 9051; SERVICE_URL := Some test_url;
                PASSWORD := Some ""; SOCKET := None;
                MAX_CIRCUIT_DIRTINESS := 10;
                HTTPTransport_error := scheme_checking_httpx |} in
  truthy (PASSWORD env) = false ∧
  ∃ msg, new env no_kwargs (scripted []) = (Raise (ValueError msg), scripted []).
Proof.
  intros env. split; [reflexivity|].
  exact (C7_configuration_checked_first env no_kwargs (scripted [])
           (or_introl eq_refl)).
Defined.

(** C8. With [max_rotations = 3], when the three attempts read the
    baseline, the baseline and then "1.2.3.4", a call with
    [prevent_ips_match=True] returns "1.2.3.4" after exactly three NEWNYM
    signals. *)
Theorem C8_third_attempt_accepted (u : bool) (s : TorIpRotator) (w : World)
    (baseline : string) :
  max_rotations s = 3 →
  local_ip s = Some baseline →
  baseline ≠ "1.2.3.4" →
  attempt_reads s w 0 baseline = true →
  attempt_reads s w 1 baseline = true →
  attempt_reads s w 2 "1.2.3.4" = true →
  u = false ∨ "1.2.3.4" ∉ used_ips s →
  ∃ s' w',
    rotate_ip u true (s, w) = (Ok "1.2.3.4", (s', w')) ∧
    signals (log w') = (signals (log w) + 3)%nat ∧
    used_ips s' = (used_ips s ++ ["1.2.3.4"])%list.
Proof.
  intros Hmax Hloc Hne H0 H1 H2 Hu.
  destruct (loop_skips_baseline u (raise (RuntimeError max_rotations_msg))
              2 3 s w "1.2.3.4") as (s' & w' & Hrun & Hus & _ & Hsig).
  - lia.
  - intros i Hi. exists baseline. split; [|done].
    destruct i as [|[|i]]; [done|done|lia].
  - done.
  - rewrite Hloc. congruence.
  - done.
  - exists s', w'. rewrite rotate_ip_unfold, Hmax. done.
Qed.

Lemma C8_third_attempt_accepted_witness :
  let s := test_rotator "9.9.9.9" "5.5.5.5" 3 [] in
  let w := scripted [Response 200 "9.9.9.9"; Response 200 "9.9.9.9";
                     Response 200 "1.2.3.4"] in
  attempt_reads s w 2 "1.2.3.4" = true ∧
  ∃ s' w',
    rotate_ip false true (s, w) = (Ok "1.2.3.4", (s', w')) ∧
    signals (log w') = (signals (log w) + 3)%nat ∧
    used_ips s' = (used_ips s ++ ["1.2.3.4"])%list.
Proof.
  intros s w. split; [vm_compute; reflexivity|].
  apply (C8_third_attempt_accepted false s w "9.9.9.9").
  - reflexivity.
  - reflexivity.
  - discriminate.
  - vm_compute; reflexivity.
  - vm_compute; reflexivity.
  - vm_compute; reflexivity.
  - by left.
Defined.

(** C9. An iteration of the loop that ends in [continue] or raises leaves
    [used_ips] as it was and an accepting iteration appends the accepted
    address; a call to [rotate_ip] that raises leaves [used_ips] as it
    was and a call that returns has appended the returned address, once. *)
Theorem C9_history_only_appended (u pm : bool) (s : TorIpRotator)
    (w : World) :
  (let '(r, (s', _)) := rotate_ip_attempt u pm (s, w) in
   match r with
   | Ok (Some a) => used_ips s' = (used_ips s ++ [a])%list
   | Ok None => used_ips s' = used_ips s
   | Raise _ => used_ips s' = used_ips s
   end) ∧
  (let '(r, (s', _)) := rotate_ip u pm (s, w) in
   match r with
   | Ok a => used_ips s' = (used_ips s ++ [a])%list
   | Raise _ => used_ips s' = used_ips s
   end).
Proof.
  split.
  - destruct (rotate_ip_attempt u pm (s, w)) as [r [s' w']] eqn:Hrun.
    apply attempt_spec in Hrun as (_ & _ & _ & Hr).
    destruct r as [[a|]|e]; [apply Hr|done|done].
  - destruct (rotate_ip u pm (s, w)) as [r [s' w']] eqn:Hrun.
    apply rotate_ip_spec in Hrun as (_ & _ & _ & Hr).
    destruct r as [a|e]; [apply Hr|done].
Qed.

(** C10. [rotate_ip()] is [rotate_ip(unique=False, prevent_ips_match=True)]:
    when the attempts before the [k]-th read the baseline and the [k]-th
    reads another address, that address is returned and appended to the
    history, whether or not the history already holds it. *)
Theorem C10_default_arguments (s : TorIpRotator) (w : World) (k : nat)
    (a : string) :
  (k < Z.to_nat (max_rotations s))%nat →
  (∀ i, (i < k)%nat →
        ∃ b, attempt_reads s w i b = true ∧ Some b = local_ip s) →
  attempt_reads s w k a = true →
  Some a ≠ local_ip s →
  rotate_ip_kw None None = rotate_ip_kw (Some false) (Some true) ∧
  ∃ s' w',
    rotate_ip_kw None None (s, w) = (Ok a, (s', w')) ∧
    used_ips s' = (used_ips s ++ [a])%list.
Proof.
  intros Hk Hb Ha Hne. split; [reflexivity|].
  destruct (loop_skips_baseline false (raise (RuntimeError max_rotations_msg))
              k (Z.to_nat (max_rotations s)) s w a Hk Hb Ha Hne (or_introl eq_refl))
    as (s' & w' & Hrun & Hus & _).
  exists s', w'. split; [|done].
  unfold rotate_ip_kw. cbn [default]. by rewrite rotate_ip_unfold.
Qed.

Lemma C10_default_arguments_witness :
  let s := test_rotator "9.9.9.9" "5.5.5.5" 10 ["1.2.3.4"] in
  let w := scripted [Response 200 "9.9.9.9"; Response 200 "1.2.3.4"] in
  "1.2.3.4" ∈ used_ips s ∧
  ∃ s' w',
    rotate_ip_kw None None (s, w) = (Ok "1.2.3.4", (s', w')) ∧
    used_ips s' = ["1.2.3.4"; "1.2.3.4"].
Proof.
  intros s w. split; [apply list_elem_of_here|].
  apply (C10_default_arguments s w 1 "1.2.3.4").
  - vm_compute. lia.
  - intros i Hi. exists "9.9.9.9". assert (i = 0%nat) as -> by lia.
    split; vm_compute; reflexivity.
  - vm_compute; reflexivity.
  - discriminate.
Defined.

(** * Further properties of the code *)

(** * The renewal of the circuit *)

Lemma renew_cases (s : TorIpRotator) (w : World) :
  let c := ctl_oracle w (ctl_seq w) in
  let w1 := next_ctl (log_call (FromPort (tor_port s)) w) in
  let w2 := log_call (Authenticate (_tor_password s)) w1 in
  let w3 := log_call SignalNEWNYM w2 in
  let w4 := log_call (GetInfo "circuit-status") w3 in
  __renew_tor_circuit (s, w) =
  match connect_error c with
  | Some msg => (Raise (StemError msg), (s, w1))
  | None =>
      match authenticate_error c with
      | Some msg => (Raise (StemError msg), (s, w2))
      | None =>
          match signal_error c with
          | Some msg => (Raise (StemError msg), (s, w3))
          | None =>
              match get_info_error c with
              | Some msg => (Raise (StemError msg), (s, w4))
              | None => (Ok tt, renewed s w)
              end
          end
      end
  end.
Proof.
  cbn zeta.
  unfold __renew_tor_circuit, Controller_from_port, controller_authenticate,
    controller_signal_NEWNYM, controller_get_info, bind, get_self,
    modify_self, renewed.
  cbn [fst snd ctl_oracle next_ctl log_call].
  destruct (connect_error _); [reflexivity|].
  cbn [fst snd ctl_oracle next_ctl log_call].
  destruct (authenticate_error _); [reflexivity|].
  cbn [fst snd ctl_oracle next_ctl log_call].
  destruct (signal_error _); [reflexivity|].
  cbn [fst snd ctl_oracle next_ctl log_call].
  destruct (get_info_error _); reflexivity.
Qed.

(** X1. [__renew_tor_circuit] never sends NEWNYM on a session it could not
    open or authenticate: it raises the [stem] error of the failed stage,
    the log gains the connection (and, when it was made, the
    authentication) and nothing else, and the object is unchanged. *)
Theorem X1_no_signal_before_authentication (s : TorIpRotator) (w : World)
    (msg : string) :
  let c := ctl_oracle w (ctl_seq w) in
  connect_error c = Some msg ∨
  (connect_error c = None ∧ authenticate_error c = Some msg) →
  ∃ w' l,
    __renew_tor_circuit (s, w) = (Raise (StemError msg), (s, w')) ∧
    log w' = (log w ++ l)%list ∧
    (l = [FromPort (tor_port s)] ∨
     l = [FromPort (tor_port s); Authenticate (_tor_password s)]) ∧
    signals (log w') = signals (log w).
Proof.
  intros c H. rewrite renew_cases. cbn zeta. fold c.
  destruct H as [->|[-> ->]]; eexists _, _;
    (split; [reflexivity|]); cbn [log log_call next_ctl];
    rewrite <- ?app_assoc; (split; [reflexivity|]);
    (split; [by (left + right)|]); by rewrite signals_app, Nat.add_0_r.
Qed.

Lemma X1_no_signal_before_authentication_witness :
  let w := {| http_oracle := fun _ _ _ => TransportFailure "unreachable";
              ctl_oracle := fun _ =>
                {| connect_error := None;
                   authenticate_error := Some "Incorrect password";
                   signal_error := None; get_info_error := None;
                   get_info_reply := "" |};
              http_seq := 0; ctl_seq := 0; log := [] |} in
  let s := test_rotator "9.9.9.9" "5.5.5.5" 10 [] in
  ∃ w' l,
    __renew_tor_circuit (s, w) =
      (Raise (StemError "Incorrect password"), (s, w')) ∧
    log w' = (log w ++ l)%list ∧
    (l = [FromPort (tor_port s)] ∨
     l = [FromPort (tor_port s); Authenticate (_tor_password s)]) ∧
    signals (log w') = signals (log w).
Proof.
  intros w s.
  apply (X1_no_signal_before_authentication s w "Incorrect password").
  right. split; reflexivity.
Defined.

(** X2. On a control session whose four stages succeed,
    [__renew_tor_circuit] makes exactly the calls connect, authenticate
    (with the object's password), NEWNYM and [get_info("circuit-status")],
    in this order, and stores the lines of the reply under the key
    [circuit_status]; every other key of [tor_data] and every other field
    stay as they were. *)
Theorem X2_renewal_records_circuit_status (s : TorIpRotator) (w : World) :
  session_succeeds (ctl_oracle w (ctl_seq w)) = true →
  ∃ s' w',
    __renew_tor_circuit (s, w) = (Ok tt, (s', w')) ∧
    log w' = (log w ++ [FromPort (tor_port s);
                        Authenticate (_tor_password s);
                        SignalNEWNYM; GetInfo "circuit-status"])%list ∧
    tor_data s' !! "circuit_status" =
      Some (__extract_circuit_status
              (get_info_reply (ctl_oracle w (ctl_seq w)))) ∧
    (∀ key, key ≠ "circuit_status" → tor_data s' !! key = tor_data s !! key) ∧
    same_config s s' ∧ used_ips s' = used_ips s.
Proof.
  intros Hs. rewrite (renew_ok s w Hs). unfold renewed. eexists _, _.
  split; [reflexivity|]. cbn [log log_call next_ctl tor_data set_tor_data].
  split; [by rewrite <- !app_assoc|].
  split; [apply lookup_insert_eq|].
  split; [intros key Hkey; by apply lookup_insert_ne|].
  split; [by unfold same_config|reflexivity].
Qed.

Lemma X2_renewal_records_circuit_status_witness :
  let w := {| http_oracle := fun _ _ _ => TransportFailure "unreachable";
              ctl_oracle := fun _ =>
                session_ok ("1 BUILT" +:+ newline +:+ "2 EXTENDED");
              http_seq := 0; ctl_seq := 0; log := [] |} in
  let s := test_rotator "9.9.9.9" "5.5.5.5" 10 [] in
  ∃ s' w',
    __renew_tor_circuit (s, w) = (Ok tt, (s', w')) ∧
    tor_data s' !! "circuit_status" = Some ["1 BUILT"; "2 EXTENDED"].
Proof.
  intros w s.
  destruct (X2_renewal_records_circuit_status s w eq_refl)
    as (s' & w' & Hrun & _ & Hdata & _).
  exists s', w'. split; [exact Hrun|exact Hdata].
Defined.

(** X3. A renewal that raises leaves the object exactly as it was, also
    when the failing stage is the [get_info] that follows a NEWNYM already
    sent; what it raises is the [stem] error of the stage. *)
Theorem X3_failed_renewal_keeps_object (s : TorIpRotator) (w : World)
    (e : exn) (s' : TorIpRotator) (w' : World) :
  __renew_tor_circuit (s, w) = (Raise e, (s', w')) →
  s' = s ∧ ∃ msg, e = StemError msg.
Proof.
  rewrite renew_cases. cbn zeta.
  destruct (connect_error _); [intros [= <- <- <-]; eauto|].
  destruct (authenticate_error _); [intros [= <- <- <-]; eauto|].
  destruct (signal_error _); [intros [= <- <- <-]; eauto|].
  destruct (get_info_error _); [intros [= <- <- <-]; eauto|done].
Qed.

Lemma X3_failed_renewal_keeps_object_witness :
  let w := {| http_oracle := fun _ _ _ => TransportFailure "unreachable";
              ctl_oracle := fun _ =>
                {| connect_error := None; authenticate_error := None;
                   signal_error := None;
                   get_info_error := Some "Connection closed";
                   get_info_reply := "" |};
              http_seq := 0; ctl_seq := 0; log := [] |} in
  let s := test_rotator "9.9.9.9" "5.5.5.5" 10 [] in
  let out := __renew_tor_circuit (s, w) in
  out.1 = Raise (StemError "Connection closed") ∧
  signals (log out.2.2) = 1%nat ∧
  out.2.1 = s.
Proof.
  intros w s out.
  assert (H : __renew_tor_circuit (s, w) =
              (Raise (StemError "Connection closed"), (out.2.1, out.2.2)))
    by (vm_compute; reflexivity).
  split; [vm_compute; reflexivity|]. split; [vm_compute; reflexivity|].
  exact (proj1 (X3_failed_renewal_keeps_object s w _ _ _ H)).
Defined.

(** * The lines of the circuit status *)

Lemma append_cons (c : ascii) (s t : string) :
  String c s +:+ t = String c (s +:+ t).
Proof. reflexivity. Qed.

Lemma append_empty_l (s : string) : "" +:+ s = s.
Proof. reflexivity. Qed.

Lemma append_snoc (line : string) (c : ascii) (rest : string) :
  (line +:+ String c "") +:+ rest = line +:+ String c rest.
Proof.
  induction line as [|c' line IH]; [reflexivity|].
  by rewrite !append_cons, IH.
Qed.

Lemma append_empty_r (s : string) : s +:+ "" = s.
Proof.
  induction s as [|c s IH]; [reflexivity|]. by rewrite append_cons, IH.
Qed.

Lemma has_linebreak_snoc (line : string) (c : ascii) :
  has_linebreak (line +:+ String c "") = has_linebreak line || is_linebreak c.
Proof.
  induction line as [|c' line IH].
  - rewrite append_empty_l. cbn [has_linebreak]. by rewrite orb_false_r.
  - rewrite append_cons. cbn [has_linebreak]. by rewrite IH, orb_assoc.
Qed.

Lemma splitlines_from_no_linebreak (n : nat) :
  ∀ (s line : string),
  (String.length s ≤ n)%nat →
  has_linebreak line = false →
  Forall (fun l => has_linebreak l = false) (splitlines_from line s).
Proof.
  induction n as [|n IH]; intros s line Hlen Hline.
  - destruct s; [|cbn in Hlen; lia]. cbn. destruct line; by repeat constructor.
  - destruct s as [|c rest]; cbn [splitlines_from].
    { destruct line; by repeat constructor. }
    cbn [String.length] in Hlen.
    destruct (is_linebreak c) eqn:Hc.
    + constructor; [done|]. destruct rest as [|c' rest']; [constructor|].
      cbn [String.length] in Hlen.
      destruct (is_CR c && is_LF c'); apply IH; try done; cbn; lia.
    + apply IH; [lia|]. by rewrite has_linebreak_snoc, Hline, Hc.
Qed.

(** X4. No line that [__extract_circuit_status] returns holds a line
    boundary, whatever the text it is given. *)
Theorem X4_status_lines_hold_no_boundary (data : string) :
  Forall (fun line => has_linebreak line = false)
         (__extract_circuit_status data).
Proof.
  unfold __extract_circuit_status, splitlines.
  by apply (splitlines_from_no_linebreak (String.length data)).
Qed.

Lemma splitlines_from_plain (s : string) :
  ∀ line : string,
  has_linebreak s = false →
  splitlines_from line s =
    match line +:+ s with EmptyString => [] | text => [text] end.
Proof.
  induction s as [|c rest IH]; intros line; cbn [has_linebreak splitlines_from].
  - intros _. rewrite append_empty_r. by destruct line.
  - intros [Hc Hrest]%orb_false_elim. rewrite Hc, (IH _ Hrest).
    by rewrite append_snoc.
Qed.

(** X5. A text without line boundary is its own single line, and the
    empty text has no line. *)
Theorem X5_single_line_status (data : string) :
  has_linebreak data = false →
  __extract_circuit_status data =
    match data with EmptyString => [] | _ => [data] end.
Proof.
  intros H. unfold __extract_circuit_status, splitlines.
  rewrite (splitlines_from_plain data "" H), append_empty_l.
  by destruct data.
Qed.

Lemma X5_single_line_status_witness :
  has_linebreak "650 CIRC 7 BUILT" = false ∧
  __extract_circuit_status "650 CIRC 7 BUILT" = ["650 CIRC 7 BUILT"] ∧
  __extract_circuit_status "" = [].
Proof.
  split; [reflexivity|]. split.
  - exact (X5_single_line_status "650 CIRC 7 BUILT" eq_refl).
  - exact (X5_single_line_status "" eq_refl).
Defined.

Lemma splitlines_from_line (a : string) :
  ∀ (line rest : string),
  has_linebreak a = false →
  splitlines_from line (a +:+ newline +:+ rest) =
    (line +:+ a) :: splitlines_from "" rest.
Proof.
  induction a as [|c a IH]; intros line rest; cbn [has_linebreak].
  - intros _. rewrite append_empty_r, append_empty_l. unfold newline.
    rewrite append_cons, append_empty_l. cbn [splitlines_from].
    change (is_linebreak (ascii_of_nat 10)) with true.
    change (is_CR (ascii_of_nat 10)) with false. cbn [andb].
    by destruct rest.
  - intros [Hc Ha]%orb_false_elim. rewrite append_cons.
    cbn [splitlines_from]. rewrite Hc.
    rewrite (IH _ _ Ha). by rewrite append_snoc.
Qed.

(** X6. The lines of a text that starts with a line without boundary
    followed by a newline are that line and then the lines of the rest:
    the status is split line by line, and a final newline adds no empty
    line. *)
Theorem X6_status_split_line_by_line (first rest : string) :
  has_linebreak first = false →
  __extract_circuit_status (first +:+ newline +:+ rest) =
    first :: __extract_circuit_status rest.
Proof.
  intros H. unfold __extract_circuit_status, splitlines.
  by rewrite (splitlines_from_line first "" rest H), append_empty_l.
Qed.

Lemma X6_status_split_line_by_line_witness :
  has_linebreak "1 BUILT" = false ∧
  __extract_circuit_status ("1 BUILT" +:+ newline +:+ "") = ["1 BUILT"] ∧
  __extract_circuit_status ("1 BUILT" +:+ newline +:+ "2 LAUNCHED")
    = ["1 BUILT"; "2 LAUNCHED"].
Proof.
  split; [reflexivity|]. split.
  - exact (X6_status_split_line_by_line "1 BUILT" "" eq_refl).
  - exact (X6_status_split_line_by_line "1 BUILT" "2 LAUNCHED" eq_refl).
Defined.

(** * Attempts that fail, and attempts that are accepted *)

Lemma session_succeeds_false (c : ctl_session) :
  session_succeeds c = false →
  ∃ msg,
    connect_error c = Some msg ∨
    (connect_error c = None ∧ authenticate_error c = Some msg) ∨
    (connect_error c = None ∧ authenticate_error c = None ∧
     signal_error c = Some msg) ∨
    (connect_error c = None ∧ authenticate_error c = None ∧
     signal_error c = None ∧ get_info_error c = Some msg).
Proof.
  unfold session_succeeds.
  destruct (connect_error c) as [m|]; [eauto|].
  destruct (authenticate_error c) as [m|]; [eauto 6|].
  destruct (signal_error c) as [m|]; [eauto 8|].
  destruct (get_info_error c) as [m|]; [eauto 10|done].
Qed.

Lemma attempt_of_generate_raise (u pm : bool) st (e : exn) st' :
  __generate_new_tor_ip st = (Raise e, st') →
  rotate_ip_attempt u pm st = (Raise e, st').
Proof. intros H. unfold rotate_ip_attempt, bind at 1. by rewrite H. Qed.

Lemma rotate_ip_first_raise (u pm : bool) (s : TorIpRotator) (w : World)
    (e : exn) st' :
  0 < max_rotations s →
  rotate_ip_attempt u pm (s, w) = (Raise e, st') →
  rotate_ip u pm (s, w) = (Raise e, st').
Proof.
  intros Hmax Ha. rewrite rotate_ip_unfold.
  destruct (Z.to_nat (max_rotations s)) as [|n] eqn:Hn; [lia|].
  cbn [for_range]. unfold bind at 1. by rewrite Ha.
Qed.

Lemma generate_ok_inv (s : TorIpRotator) (w : World) (a : string) st' :
  __generate_new_tor_ip (s, w) = (Ok a, st') →
  session_succeeds (ctl_oracle w (ctl_seq w)) = true ∧
  ∃ url status,
    ip_service_url s = Some url ∧
    http_oracle w (http_seq w) (ViaClient (tor_mount_ip s)) url
      = Response status a ∧
    is_success status = true ∧
    st' = probed s w url.
Proof.
  rewrite generate_eq.
  destruct (session_succeeds (ctl_oracle w (ctl_seq w))) eqn:Hs.
  - rewrite (renew_ok s w Hs). unfold renewed at 1.
    cbn [ip_service_url set_tor_data].
    destruct (ip_service_url s) as [url|]; [|done].
    rewrite make_request_through_tor_eq. unfold renewed.
    cbn [tor_mount_ip set_tor_data http_oracle http_seq log_call next_ctl].
    destruct (http_oracle w (http_seq w) _ url) as [status text|msg] eqn:Hr;
      cbn [tor_request_outcome]; [|done].
    destruct (is_success status) eqn:Hok; [|done].
    intros [= <- <-]. split; [done|]. exists url, status.
    rewrite Hr. done.
  - destruct (__renew_tor_circuit (s, w)) as [[[]|e] [s1 w1]] eqn:Hr; [|done].
    rewrite renew_cases in Hr. cbn zeta in Hr.
    apply session_succeeds_false in Hs as (msg & [H|[H|[H|H]]]).
    + rewrite H in Hr. discriminate Hr.
    + destruct H as [H1 H]. rewrite H1, H in Hr. discriminate Hr.
    + destruct H as (H1 & H2 & H). rewrite H1, H2, H in Hr. discriminate Hr.
    + destruct H as (H1 & H2 & H3 & H). rewrite H1, H2, H3, H in Hr.
      discriminate Hr.
Qed.

Lemma attempt_accepted_inv (u pm : bool) (s : TorIpRotator) (w : World)
    (a : string) (s' : TorIpRotator) (w' : World) :
  rotate_ip_attempt u pm (s, w) = (Ok (Some a), (s', w')) →
  session_succeeds (ctl_oracle w (ctl_seq w)) = true ∧
  ∃ url status,
    ip_service_url s = Some url ∧
    http_oracle w (http_seq w) (ViaClient (tor_mount_ip s)) url
      = Response status a ∧
    is_success status = true ∧
    s' = set_used_ips (used_ips s ++ [a]) (probed s w url).1 ∧
    w' = (probed s w url).2.
Proof.
  unfold rotate_ip_attempt, bind at 1.
  destruct (__generate_new_tor_ip (s, w)) as [[b|e] st1] eqn:Hg; [|done].
  apply generate_ok_inv in Hg as (Hs & url & status & Hurl & Hr & Hok & ->).
  unfold bind at 1, get_self, probed, renewed.
  cbn [fst snd local_ip used_ips max_rotations set_tor_data].
  destruct (pm && _); [done|].
  destruct (u && _); [by destruct (_ >=? _)|].
  unfold bind, modify_self, ret. cbn [fst snd used_ips set_tor_data].
  intros [= <- <- <-]. split; [done|]. by exists url, status.
Qed.

Lemma loop_accepting (u pm : bool) (e : exn) (n : nat) :
  ∀ (s : TorIpRotator) (w : World) (a : string) s' w',
  for_range n (rotate_ip_attempt u pm) (raise e) (s, w) = (Ok a, (s', w')) →
  ∃ s0 w0,
    same_config s s0 ∧
    http_oracle w0 = http_oracle w ∧ ctl_oracle w0 = ctl_oracle w ∧
    (ctl_seq w ≤ ctl_seq w0)%nat ∧
    rotate_ip_attempt u pm (s0, w0) = (Ok (Some a), (s', w')).
Proof.
  induction n as [|n IH]; intros s w a s' w'; cbn [for_range]; [done|].
  unfold bind at 1.
  destruct (rotate_ip_attempt u pm (s, w)) as [r1 [s1 w1]] eqn:Ha.
  destruct r1 as [[b|]|e1]; [| |done].
  - intros [= <- <- <-]. exists s, w. split; [apply same_config_refl|done].
  - apply attempt_spec in Ha as (Hc & Hseq & (l & (Hh & Hctl & _) & _) & _).
    intros (s0 & w0 & Hc0 & Hh0 & Hctl0 & Hle & Hrun)%IH.
    exists s0, w0. split; [eapply same_config_trans; eauto|].
    split; [congruence|]. split; [congruence|]. split; [lia|done].
Qed.

Lemma attempt_rejects (u pm : bool) (s : TorIpRotator) (w : World)
    (b : string) :
  attempt_reads s w 0 b = true →
  silently_rejected u pm s b →
  ∃ url, rotate_ip_attempt u pm (s, w) = (Ok None, probed s w url).
Proof.
  intros (url & Hurl & Hg)%generate_reads Hrej. exists url.
  unfold rotate_ip_attempt, bind at 1. rewrite Hg.
  unfold bind at 1, get_self, probed, renewed.
  cbn [fst snd local_ip used_ips max_rotations set_tor_data].
  destruct (pm && bool_decide (Some b = local_ip s)) eqn:Hpm; [reflexivity|].
  destruct Hrej as [[-> Hb]|(-> & Hin & Hlen)].
  { by rewrite bool_decide_eq_true_2 in Hpm. }
  rewrite bool_decide_eq_true_2 by done. cbn [andb].
  replace (Z.of_nat (length (used_ips s)) >=? max_rotations s) with false;
    [reflexivity|].
  symmetry. rewrite Z.geb_leb. apply Z.leb_gt. lia.
Qed.

Lemma loop_all_rejected (u pm : bool) (after : M TorIpRotator string)
    (n : nat) :
  ∀ (s : TorIpRotator) (w : World),
  (∀ i, (i < n)%nat →
        ∃ b, attempt_reads s w i b = true ∧ silently_rejected u pm s b) →
  ∃ s' w',
    for_range n (rotate_ip_attempt u pm) after (s, w) = after (s', w') ∧
    same_config s s' ∧ used_ips s' = used_ips s ∧
    signals (log w') = (signals (log w) + n)%nat.
Proof.
  induction n as [|n IH]; intros s w Hall.
  - exists s, w. cbn [for_range]. split; [done|].
    split; [apply same_config_refl|]. split; [done|lia].
  - destruct (Hall 0%nat) as (b & Hb & Hrej); [lia|].
    destruct (attempt_rejects u pm s w b Hb Hrej) as (url & Heq).
    destruct (IH (probed s w url).1 (probed s w url).2) as
      (s' & w' & Hrun & Hc & Hu & Hsig).
    { intros i Hi. destruct (Hall (S i)) as (b' & Hb' & Hrej'); [lia|].
      exists b'. split; [by apply attempt_reads_probed|exact Hrej']. }
    exists s', w'. cbn [for_range]. unfold bind at 1. rewrite Heq.
    rewrite <- surjective_pairing in Hrun. split; [exact Hrun|].
    split; [|split].
    + eapply same_config_trans; [|exact Hc]. by unfold same_config.
    + by rewrite Hu.
    + rewrite Hsig, probed_signals. lia.
Qed.

Lemma renew_fails (s : TorIpRotator) (w : World) :
  session_succeeds (ctl_oracle w (ctl_seq w)) = false →
  ∃ msg w',
    __renew_tor_circuit (s, w) = (Raise (StemError msg), (s, w')) ∧
    ctl_seq w' = S (ctl_seq w) ∧ http_seq w' = http_seq w.
Proof.
  intros (msg & H)%session_succeeds_false. exists msg.
  rewrite renew_cases. cbn zeta.
  destruct H as [H|[(H1 & H)|[(H1 & H2 & H)|(H1 & H2 & H3 & H)]]];
    rewrite ?H1, ?H2, ?H3, H; eexists; (split; [reflexivity|done]).
Qed.

(** X7. A control session that fails at any stage ends the call to
    [rotate_ip] at once, whatever number of iterations was left: the
    [stem] error is raised, one session was opened, no probe was made and
    the object is unchanged. *)
Theorem X7_controller_failure_ends_call (u pm : bool) (s : TorIpRotator)
    (w : World) :
  0 < max_rotations s →
  session_succeeds (ctl_oracle w (ctl_seq w)) = false →
  ∃ msg w',
    rotate_ip u pm (s, w) = (Raise (StemError msg), (s, w')) ∧
    ctl_seq w' = S (ctl_seq w) ∧
    http_seq w' = http_seq w.
Proof.
  intros Hmax (msg & w' & Hr & Hc & Hh)%(renew_fails s).
  exists msg, w'. split; [|done].
  apply rotate_ip_first_raise; [done|].
  apply attempt_of_generate_raise. rewrite generate_eq. by rewrite Hr.
Qed.

Lemma X7_controller_failure_ends_call_witness :
  let w := {| http_oracle := fun _ _ _ => Response 200 "1.2.3.4";
              ctl_oracle := fun _ =>
                {| connect_error := Some "Connection refused";
                   authenticate_error := None; signal_error := None;
                   get_info_error := None; get_info_reply := "" |};
              http_seq := 0; ctl_seq := 0; log := [] |} in
  let s := test_rotator "9.9.9.9" "5.5.5.5" 10 [] in
  ∃ msg w',
    rotate_ip false true (s, w) = (Raise (StemError msg), (s, w')) ∧
    ctl_seq w' = 1%nat ∧ http_seq w' = 0%nat.
Proof.
  intros w s.
  apply (X7_controller_failure_ends_call false true s w);
    [reflexivity|vm_compute; reflexivity].
Defined.

(** X8. A probe that fails ends the call to [rotate_ip] at once, without
    another attempt: a transport failure is raised wrapped in a
    [RuntimeError], a reply that is not 2xx as the status error of
    [raise_for_status]; one NEWNYM signal was sent, one GET was made and
    the history is unchanged. *)
Theorem X8_probe_failure_ends_call (u pm : bool) (s : TorIpRotator)
    (w : World) (url : string) :
  0 < max_rotations s →
  session_succeeds (ctl_oracle w (ctl_seq w)) = true →
  ip_service_url s = Some url →
  match http_oracle w (http_seq w) (ViaClient (tor_mount_ip s)) url with
  | TransportFailure msg =>
      rotate_ip u pm (s, w) =
        (Raise (RuntimeError
                  ("Failed to make a request through Tor: " +:+ msg)),
         probed s w url)
  | Response status text =>
      is_success status = false →
      rotate_ip u pm (s, w) =
        (Raise (HTTPStatusError status url), probed s w url)
  end ∧
  used_ips (probed s w url).1 = used_ips s ∧
  signals (log (probed s w url).2) = S (signals (log w)) ∧
  http_seq (probed s w url).2 = S (http_seq w).
Proof.
  intros Hmax Hs Hurl. split; [|split; [done|split; [apply probed_signals|done]]].
  assert (Hg : __generate_new_tor_ip (s, w) =
               (tor_request_outcome url
                  (http_oracle w (http_seq w) (ViaClient (tor_mount_ip s)) url),
                probed s w url)).
  { rewrite generate_eq, (renew_ok s w Hs). unfold renewed at 1.
    cbn [ip_service_url set_tor_data]. rewrite Hurl.
    by rewrite make_request_through_tor_eq. }
  destruct (http_oracle w (http_seq w) _ url) as [status text|msg];
    cbn [tor_request_outcome] in Hg.
  - intros Hok. rewrite Hok in Hg.
    apply rotate_ip_first_raise; [done|].
    by apply attempt_of_generate_raise.
  - apply rotate_ip_first_raise; [done|].
    by apply attempt_of_generate_raise.
Qed.

Lemma X8_probe_failure_ends_call_witness :
  let s := test_rotator "9.9.9.9" "5.5.5.5" 10 ["7.7.7.7"] in
  let w := scripted [TransportFailure "timed out"; Response 200 "1.2.3.4"] in
  rotate_ip false true (s, w) =
    (Raise (RuntimeError "Failed to make a request through Tor: timed out"),
     probed s w test_url) ∧
  used_ips (probed s w test_url).1 = ["7.7.7.7"] ∧
  signals (log (probed s w test_url).2) = 1%nat.
Proof.
  intros s w.
  destruct (X8_probe_failure_ends_call false true s w test_url
              eq_refl eq_refl eq_refl) as (Hrun & Hu & Hsig & _).
  split; [exact Hrun|]. split; [exact Hu|exact Hsig].
Defined.

(** X9. With [max_rotations] zero or negative the loop of [rotate_ip] has
    no iteration: the call raises "Max IP rotations reached. Failed to get
    a unique new IP." without any call to the control port or the
    network, and the object is unchanged. *)
Theorem X9_no_iteration_without_budget (u pm : bool) (s : TorIpRotator)
    (w : World) :
  max_rotations s <= 0 →
  rotate_ip u pm (s, w) = (Raise (RuntimeError max_rotations_msg), (s, w)).
Proof.
  intros Hmax. rewrite rotate_ip_unfold.
  replace (Z.to_nat (max_rotations s)) with 0%nat by lia. reflexivity.
Qed.

Lemma X9_no_iteration_without_budget_witness :
  let s := test_rotator "9.9.9.9" "5.5.5.5" (-1) [] in
  let w := scripted [Response 200 "1.2.3.4"] in
  max_rotations s <= 0 ∧
  rotate_ip true true (s, w) = (Raise (RuntimeError max_rotations_msg), (s, w)).
Proof.
  intros s w. split; [vm_compute; discriminate|].
  apply X9_no_iteration_without_budget. vm_compute. discriminate.
Defined.

(** X10. When each of the [max_rotations] attempts of a call reads an
    address that is answered with [continue] (the baseline under
    [prevent_ips_match], or under [unique] an address of a history shorter
    than [max_rotations]), the call sends [max_rotations] NEWNYM signals,
    raises "Max IP rotations reached. Failed to get a unique new IP." and
    leaves the history as it was. *)
Theorem X10_budget_spent_on_rejections (u pm : bool) (s : TorIpRotator)
    (w : World) :
  (∀ i, (i < Z.to_nat (max_rotations s))%nat →
        ∃ b, attempt_reads s w i b = true ∧ silently_rejected u pm s b) →
  ∃ s' w',
    rotate_ip u pm (s, w) =
      (Raise (RuntimeError max_rotations_msg), (s', w')) ∧
    used_ips s' = used_ips s ∧
    signals (log w') = (signals (log w) + Z.to_nat (max_rotations s))%nat.
Proof.
  intros Hall.
  destruct (loop_all_rejected u pm (raise (RuntimeError max_rotations_msg))
              _ s w Hall) as (s' & w' & Hrun & _ & Hu & Hsig).
  exists s', w'. rewrite rotate_ip_unfold. by rewrite Hrun.
Qed.

Lemma X10_budget_spent_on_rejections_witness :
  let s := test_rotator "9.9.9.9" "5.5.5.5" 2 ["1.1.1.1"] in
  let w := scripted [Response 200 "1.1.1.1"; Response 200 "1.1.1.1"] in
  ∃ s' w',
    rotate_ip true true (s, w) =
      (Raise (RuntimeError max_rotations_msg), (s', w')) ∧
    used_ips s' = ["1.1.1.1"] ∧
    signals (log w') = 2%nat.
Proof.
  intros s w. apply (X10_budget_spent_on_rejections true true s w).
  intros i Hi. exists "1.1.1.1". split.
  - assert (i = 0 ∨ i = 1)%nat as [-> | ->] by (vm_compute in Hi; lia);
      vm_compute; reflexivity.
  - right. split; [reflexivity|]. split; [apply list_elem_of_here|].
    vm_compute. reflexivity.
Defined.

(** X11. After a call to [rotate_ip] that returns, the key
    [circuit_status] of [tor_data] holds the lines of the reply of the
    last control session the call opened, whatever it held before and
    however many attempts the call made. *)
Theorem X11_diagnostics_of_last_renewal (u pm : bool) (s : TorIpRotator)
    (w : World) (a : string) (s' : TorIpRotator) (w' : World) :
  rotate_ip u pm (s, w) = (Ok a, (s', w')) →
  (ctl_seq w < ctl_seq w')%nat ∧
  tor_data s' !! "circuit_status" =
    Some (__extract_circuit_status
            (get_info_reply (ctl_oracle w (pred (ctl_seq w'))))).
Proof.
  rewrite rotate_ip_unfold.
  intros (s0 & w0 & Hc & Hh & Hctl & Hle & Ha)%loop_accepting.
  apply attempt_accepted_inv in Ha
    as (_ & url & status & _ & _ & _ & -> & ->).
  unfold probed, renewed, after_get.
  cbn [fst snd tor_data set_used_ips set_tor_data ctl_seq next_http log_call
       next_ctl].
  rewrite lookup_insert_eq, Hctl. split; [lia|done].
Qed.

Lemma X11_diagnostics_of_last_renewal_witness :
  let w := {| http_oracle := fun n _ _ =>
                nth n [Response 200 "9.9.9.9"; Response 200 "1.2.3.4"]
                      (TransportFailure "unreachable");
              ctl_oracle := fun n =>
                session_ok (nth n ["1 LAUNCHED"; "2 BUILT"] "");
              http_seq := 0; ctl_seq := 0; log := [] |} in
  let s := test_rotator "9.9.9.9" "5.5.5.5" 10 [] in
  let st' := (rotate_ip false true (s, w)).2 in
  rotate_ip false true (s, w) = (Ok "1.2.3.4", (st'.1, st'.2)) ∧
  ctl_seq st'.2 = 2%nat ∧
  __extract_circuit_status (get_info_reply (ctl_oracle w 1)) = ["2 BUILT"] ∧
  tor_data st'.1 !! "circuit_status" =
    Some (__extract_circuit_status
            (get_info_reply (ctl_oracle w (pred (ctl_seq st'.2))))).
Proof.
  intros w s st'.
  assert (H : rotate_ip false true (s, w) = (Ok "1.2.3.4", (st'.1, st'.2)))
    by (vm_compute; reflexivity).
  split; [exact H|]. split; [vm_compute; reflexivity|].
  split; [vm_compute; reflexivity|].
  exact (proj2 (X11_diagnostics_of_last_renewal false true s w _ _ _ H)).
Defined.

(** X12. The address that [rotate_ip] returns is the text of the 2xx
    reply to the last GET the call made, a GET of the service URL through
    the object's mounts: the call returns no address that was not probed
    in its accepting attempt. *)
Theorem X12_returned_address_was_probed (u pm : bool) (s : TorIpRotator)
    (w : World) (a : string) (s' : TorIpRotator) (w' : World) :
  rotate_ip u pm (s, w) = (Ok a, (s', w')) →
  ∃ url status,
    ip_service_url s = Some url ∧
    http_oracle w (pred (http_seq w')) (ViaClient (tor_mount_ip s)) url
      = Response status a ∧
    is_success status = true ∧
    last (log w') = Some (HttpGet (ViaClient (tor_mount_ip s)) url).
Proof.
  rewrite rotate_ip_unfold.
  intros (s0 & w0 & Hc & Hh & Hctl & Hle & Ha)%loop_accepting.
  apply attempt_accepted_inv in Ha
    as (_ & url & status & Hurl & Hr & Hok & -> & ->).
  destruct Hc as (_ & _ & _ & Hm & _ & Hu & _).
  exists url, status. rewrite <- Hm, <- Hu, <- Hh.
  split; [done|]. unfold probed, renewed, after_get.
  cbn [fst snd http_seq next_http log_call next_ctl log tor_mount_ip
       set_tor_data pred].
  split; [done|]. split; [done|]. by rewrite last_snoc.
Qed.

Lemma X12_returned_address_was_probed_witness :
  let s := test_rotator "9.9.9.9" "5.5.5.5" 10 [] in
  let w := scripted [Response 200 "9.9.9.9"; Response 204 "1.2.3.4"] in
  let st' := (rotate_ip false true (s, w)).2 in
  rotate_ip false true (s, w) = (Ok "1.2.3.4", (st'.1, st'.2)) ∧
  ∃ url status,
    ip_service_url s = Some url ∧
    http_oracle w (pred (http_seq st'.2)) (ViaClient (tor_mount_ip s)) url
      = Response status "1.2.3.4" ∧
    is_success status = true ∧
    last (log st'.2) = Some (HttpGet (ViaClient (tor_mount_ip s)) url).
Proof.
  intros s w st'.
  assert (H : rotate_ip false true (s, w) = (Ok "1.2.3.4", (st'.1, st'.2)))
    by (vm_compute; reflexivity).
  split; [exact H|].
  exact (X12_returned_address_was_probed false true s w _ _ _ H).
Defined.

(** * Requests, sequences of calls and the constructor *)

(** X13. [make_request_through_tor] makes exactly one GET, through a
    client with the object's current mounts, and never changes the object
    or contacts the control port; it returns the text of a 2xx reply and
    raises a transport failure wrapped in a [RuntimeError] that carries
    the text of the failure. *)
Theorem X13_request_through_tor (url : string) (s : TorIpRotator)
    (w : World) :
  ∃ r w',
    make_request_through_tor url (s, w) = (r, (s, w')) ∧
    log w' = (log w ++ [HttpGet (ViaClient (tor_mount_ip s)) url])%list ∧
    ctl_seq w' = ctl_seq w ∧
    match http_oracle w (http_seq w) (ViaClient (tor_mount_ip s)) url with
    | Response status text => is_success status = true → r = Ok text
    | TransportFailure msg =>
        r = Raise (RuntimeError
                     ("Failed to make a request through Tor: " +:+ msg))
    end.
Proof.
  rewrite make_request_through_tor_eq. eexists _, _.
  split; [reflexivity|]. split; [reflexivity|]. split; [reflexivity|].
  destruct (http_oracle w (http_seq w) _ url) as [status text|msg];
    cbn [tor_request_outcome]; [|reflexivity].
  by intros ->.
Qed.

Lemma X13_request_through_tor_witness :
  let s := test_rotator "9.9.9.9" "5.5.5.5" 10 [] in
  let w := scripted [Response 200 "<html>ok</html>"] in
  ∃ w', make_request_through_tor "http://example.test/" (s, w)
        = (Ok "<html>ok</html>", (s, w')).
Proof.
  intros s w.
  destruct (X13_request_through_tor "http://example.test/" s w)
    as (r & w' & Hrun & _ & _ & Hr).
  exists w'. rewrite Hrun. by rewrite (Hr eq_refl).
Defined.

Lemma calls_frame (args : list (bool * bool)) :
  ∀ (s : TorIpRotator) (w : World) rs s' w',
  rotate_ip_calls args (s, w) = (rs, (s', w')) →
  same_config s s' ∧
  used_ips s' = (used_ips s ++ accepted rs)%list.
Proof.
  induction args as [|[u pm] args IH]; intros s w rs s' w';
    cbn [rotate_ip_calls].
  - intros [= <- <- <-]. split; [apply same_config_refl|].
    cbn. by rewrite app_nil_r.
  - destruct (rotate_ip u pm (s, w)) as [r [s1 w1]] eqn:Hr.
    destruct (rotate_ip_calls args (s1, w1)) as [rs1 [s2 w2]] eqn:Hrs.
    intros [= <- <- <-].
    apply rotate_ip_spec in Hr as (Hc & _ & _ & Hr).
    apply IH in Hrs as (Hc' & Hu').
    split; [eapply same_config_trans; eauto|].
    destruct r as [a|e]; cbn [accepted omap]; fold (accepted rs1).
    + destruct Hr as (Hu & _). by rewrite Hu', Hu, <- app_assoc.
    + by rewrite Hu', Hr.
Qed.

(** X14. Whatever calls to [rotate_ip] were made, with whatever flags and
    outcomes, the history is the history before them followed by the
    addresses they returned, in order, and a request made afterwards goes
    through the mounts the object had before them: rotating does not
    rebuild the transport. *)
Theorem X14_rotations_keep_transport (args : list (bool * bool))
    (url : string) (s : TorIpRotator) (w : World) :
  let '(rs, (s', w')) := rotate_ip_calls args (s, w) in
  used_ips s' = (used_ips s ++ accepted rs)%list ∧
  tor_mount_ip s' = tor_mount_ip s ∧
  log (make_request_through_tor url (s', w')).2.2 =
    (log w' ++ [HttpGet (ViaClient (tor_mount_ip s)) url])%list.
Proof.
  destruct (rotate_ip_calls args (s, w)) as [rs [s' w']] eqn:Hrun.
  apply calls_frame in Hrun as (Hc & Hu).
  assert (Hm : tor_mount_ip s' = tor_mount_ip s) by apply Hc.
  split; [done|]. split; [done|].
  by rewrite make_request_through_tor_eq, Hm.
Qed.

(** X15. [__repr__] gives the same text after any sequence of calls to
    [rotate_ip] as before it: the text shows [tor_ip], [local_ip] and
    [max_rotations], and no rotation writes any of them. *)
Theorem X15_repr_unchanged_by_rotation (args : list (bool * bool))
    (s : TorIpRotator) (w : World) :
  __repr__ (rotate_ip_calls args (s, w)).2.1 = __repr__ s.
Proof.
  destruct (rotate_ip_calls args (s, w)) as [rs [s' w']] eqn:Hrun.
  apply calls_frame in Hrun as ((Ht & Hl & Hm & _) & _).
  unfold __repr__. cbn [fst snd]. by rewrite Ht, Hl, Hm.
Qed.

Lemma new_missing_configuration (env : Environ) (kw : kwargs) (w : World) :
  truthy (PASSWORD env) && truthy (SERVICE_URL env) = false →
  ∃ msg, new env kw w = (Raise (ValueError msg), w).
Proof.
  intros H. unfold new, __init__, bind at 1, get_self.
  cbn [fst snd _tor_password ip_service_url BaseModel_init].
  destruct (truthy (PASSWORD env)); cbn [negb]; [|by eexists].
  cbn [andb] in H. rewrite H. by eexists.
Qed.

Lemma truthy_true (o : option string) :
  truthy o = true → ∃ url, o = Some url ∧ url ≠ "".
Proof. destruct o as [[|c url]|]; [done| |done]. by eexists. Qed.

(** X16. The constructor never contacts the control port and makes at
    most two GETs, whether it returns or raises: every call it adds to
    the log is a GET, and the count of control sessions is unchanged. *)
Theorem X16_constructor_only_probes (env : Environ) (kw : kwargs)
    (w : World) :
  let '(_, w') := new env kw w in
  ctl_seq w' = ctl_seq w ∧
  ∃ l : list call,
    log w' = (log w ++ l)%list ∧
    (length l ≤ 2)%nat ∧
    forallb is_http l = true.
Proof.
  destruct (truthy (PASSWORD env) && truthy (SERVICE_URL env)) eqn:Hcfg.
  - apply andb_true_iff in Hcfg as [Hpw Hurl].
    destruct (truthy_true _ Hurl) as (url & Hsome & _).
    rewrite (new_probes env kw w url Hpw Hurl Hsome). cbn zeta.
    destruct (direct_request_outcome _ _) as [a|e].
    + destruct (tor_request_outcome _ _) as [b|e];
        [destruct (HTTPTransport_error env (SOCKET env)) as [e|]|];
        (split; [reflexivity|]);
        exists [HttpGet Direct url; HttpGet (constructor_route kw) url];
        unfold after_get; cbn [log log_call next_http];
        rewrite <- app_assoc; (split; [reflexivity|]);
        (split; [cbn; lia|reflexivity]).
    + split; [reflexivity|]. exists [HttpGet Direct url].
      split; [reflexivity|]. split; [cbn; lia|reflexivity].
  - destruct (new_missing_configuration env kw w Hcfg) as [msg ->].
    split; [reflexivity|]. exists []. rewrite app_nil_r.
    split; [reflexivity|]. split; [cbn; lia|reflexivity].
Qed.

(** X18. An object that the constructor returns is complete: the
    password and the service URL are non-empty, [local_ip] is the text of
    the 2xx reply to the direct probe and [tor_ip] the text of the 2xx
    reply to the second probe, whatever the keywords gave for them, both
    schemes are mounted on the transport that [httpx] built for the SOCKET
    address, and the history, [max_rotations] and [tor_data] are the
    keywords or, without them, the empty history, 10 and the empty
    dictionary. *)
Theorem X18_constructed_object_complete (env : Environ) (kw : kwargs)
    (w : World) (self : TorIpRotator) (w' : World) :
  new env kw w = (Ok self, w') →
  ∃ url status1 a status2 b,
    truthy (_tor_password self) = true ∧
    ip_service_url self = Some url ∧ url ≠ "" ∧
    http_oracle w (http_seq w) Direct url = Response status1 a ∧
    is_success status1 = true ∧
    local_ip self = Some a ∧
    http_oracle w (S (http_seq w)) (constructor_route kw) url
      = Response status2 b ∧
    is_success status2 = true ∧
    tor_ip self = Some b ∧
    HTTPTransport_error env (SOCKET env) = None ∧
    tor_mount_ip self !! "http://" = Some (HTTPTransport (SOCKET env)) ∧
    tor_mount_ip self !! "https://" = Some (HTTPTransport (SOCKET env)) ∧
    used_ips self = default [] (kw_used_ips kw) ∧
    max_rotations self = default 10 (kw_max_rotations kw) ∧
    tor_data self = default ∅ (kw_tor_data kw).
Proof.
  destruct (truthy (PASSWORD env) && truthy (SERVICE_URL env)) eqn:Hcfg.
  - apply andb_true_iff in Hcfg as [Hpw Hurl].
    destruct (truthy_true _ Hurl) as (url & Hsome & Hne).
    rewrite (new_probes env kw w url Hpw Hurl Hsome). cbn zeta.
    destruct (http_oracle w (http_seq w) Direct url) as [status1 a|msg1]
      eqn:Hdirect; cbn [direct_request_outcome]; [|done].
    destruct (is_success status1) eqn:Hok1; [|done].
    destruct (http_oracle w (S (http_seq w)) (constructor_route kw) url)
      as [status2 b|msg2] eqn:Htor; cbn [tor_request_outcome]; [|done].
    destruct (is_success status2) eqn:Hok2; [|done].
    destruct (HTTPTransport_error env (SOCKET env)) as [e|] eqn:Hbuilt;
      [done|].
    intros [= <- <-]. exists url, status1, a, status2, b.
    cbn [_tor_password ip_service_url local_ip tor_ip tor_mount_ip used_ips
         max_rotations tor_data set_tor_mount_ip set_tor_ip set_local_ip
         BaseModel_init].
    split; [done|]. split; [done|]. split; [done|]. split; [done|].
    split; [done|]. split; [done|]. split; [done|]. split; [done|].
    split; [done|]. split; [done|].
    split; [apply lookup_insert_eq|].
    split; [|done].
    rewrite lookup_insert_ne by discriminate. apply lookup_insert_eq.
  - destruct (new_missing_configuration env kw w Hcfg) as [msg ->]. done.
Qed.

Lemma X18_constructed_object_complete_witness :
  let kw := {| kw_tor_ip := Some "0.0.0.0"; kw_local_ip := Some "0.0.0.0";
               kw_tor_data := None; kw_max_rotations := Some 3;
               kw_tor_mount_ip := None; kw_used_ips := Some ["7.7.7.7"] |} in
  let w := scripted [Response 200 "9.9.9.9"; Response 200 "5.5.5.5"] in
  let out := new test_env kw w in
  ∃ self,
    out = (Ok self, out.2) ∧
    local_ip self = Some "9.9.9.9" ∧
    tor_ip self = Some "5.5.5.5" ∧
    used_ips self = ["7.7.7.7"] ∧ max_rotations self = 3.
Proof.
  intros kw w out.
  assert (H : ∃ self, new test_env kw w = (Ok self, out.2))
    by (eexists; vm_compute; reflexivity).
  destruct H as (self & H). exists self. split; [exact H|].
  destruct (X18_constructed_object_complete test_env kw w self out.2 H)
    as (url & status1 & a & status2 & b & _ & _ & _ & Hdirect & _ & Hloc
        & Htor & _ & Htip & _ & _ & _ & Hu & Hmax & _).
  injection Hdirect as _ <-. injection Htor as _ <-.
  split; [exact Hloc|]. split; [exact Htip|]. split; [exact Hu|exact Hmax].
Defined.

(** * [show_example] *)

Lemma show_example_body_ok (s : TorIpRotator) (out : list string)
    (w : World) r (s' : TorIpRotator) (out' : list string) (w' : World) :
  show_example_body ((s, out), w) = (Ok r, ((s', out'), w')) →
  r = None ∧
  ∃ a seen,
    out' = (out ++ ["Local IP: " +:+ format_optional (local_ip s);
                    "Rotated IP: " +:+ a;
                    "IP seen by an external server: " +:+ seen +:+ newline])%list ∧
    used_ips s' = (used_ips s ++ [a])%list ∧
    (a ∉ used_ips s) ∧ Some a ≠ local_ip s ∧
    local_ip s' = local_ip s.
Proof.
  unfold show_example_body, bind at 1, get_self. cbn [fst snd].
  unfold bind at 1, print at 1, modify_self. cbn [fst snd].
  unfold bind at 1, method at 1. cbn [fst snd].
  change (rotate_ip_kw (Some true) None) with (rotate_ip true true).
  destruct (rotate_ip true true (s, w)) as [[a|e] [s1 w1]] eqn:Hrot;
    cbn [fst snd]; [|done].
  apply rotate_ip_spec in Hrot as (Hc & _ & _ & Hu & Hb & Hf).
  unfold bind at 1, print at 1, modify_self. cbn [fst snd].
  unfold bind at 1, get_self. cbn [fst snd].
  unfold bind at 1, method at 1, url_argument. cbn [fst snd].
  destruct (ip_service_url s1) as [url|];
    [unfold ret at 1|unfold raise at 1]; cbn [fst snd]; [|done].
  unfold bind at 1, method at 1. cbn [fst snd].
  rewrite make_request_through_tor_eq.
  destruct (tor_request_outcome _ _) as [seen|e]; cbn [fst snd]; [|done].
  unfold bind, print, modify_self, ret. cbn [fst snd].
  intros [= <- <- <- <-]. split; [done|]. exists a, seen.
  split; [by rewrite <- !app_assoc|]. split; [done|].
  split; [by apply Hf|]. split; [by apply Hb|apply Hc].
Qed.

Lemma new_default_ok (env : Environ) (w : World) (self : TorIpRotator)
    (w' : World) :
  new env no_kwargs w = (Ok self, w') →
  used_ips self = [] ∧ ∃ loc, local_ip self = Some loc.
Proof.
  destruct (truthy (PASSWORD env) && truthy (SERVICE_URL env)) eqn:Hcfg.
  - apply andb_true_iff in Hcfg as [Hpw Hurl].
    destruct (truthy_true _ Hurl) as (url & Hsome & Hne).
    rewrite (new_probes env no_kwargs w url Hpw Hurl Hsome). cbn zeta.
    destruct (direct_request_outcome _ _) as [a|e]; [|done].
    destruct (tor_request_outcome _ _) as [b|e]; [|done].
    destruct (HTTPTransport_error env (SOCKET env)) as [e|]; [done|].
    intros [= <- <-]. split; [reflexivity|]. by exists a.
  - destruct (new_missing_configuration env no_kwargs w Hcfg) as [msg ->].
    done.
Qed.

(** X19. When [show_example] runs to its end it has printed nine lines,
    three for each of its three rounds: the local address, the rotated
    address and the address seen by the service. The local address is the
    same in the three rounds, the three rotated addresses are pairwise
    different, and none of them is the local address. *)
Theorem X19_show_example_output (env : Environ) (w : World)
    (out : list string) (w' : World) :
  show_example env w = (Ok tt, (out, w')) →
  ∃ loc a1 a2 a3 e1 e2 e3,
    out = ["Local IP: " +:+ loc; "Rotated IP: " +:+ a1;
           "IP seen by an external server: " +:+ e1 +:+ newline;
           "Local IP: " +:+ loc; "Rotated IP: " +:+ a2;
           "IP seen by an external server: " +:+ e2 +:+ newline;
           "Local IP: " +:+ loc; "Rotated IP: " +:+ a3;
           "IP seen by an external server: " +:+ e3 +:+ newline] ∧
    NoDup [a1; a2; a3] ∧
    loc ∉ [a1; a2; a3].
Proof.
  unfold show_example.
  destruct (new env no_kwargs w) as [[ip|e] w0] eqn:Hnew; [|done].
  apply new_default_ok in Hnew as (Hempty & loc & Hloc).
  cbn [for_range]. unfold bind at 1.
  destruct (show_example_body ((ip, []), w0)) as [[r1|e] [[s1 o1] w1]] eqn:H1;
    [|done].
  apply show_example_body_ok in H1
    as (-> & a1 & e1 & -> & Hu1 & _ & Hb1 & Hl1).
  unfold bind at 1.
  destruct (show_example_body ((s1, _), w1)) as [[r2|e] [[s2 o2] w2]] eqn:H2;
    [|done].
  apply show_example_body_ok in H2
    as (-> & a2 & e2 & -> & Hu2 & Hf2 & Hb2 & Hl2).
  unfold bind at 1.
  destruct (show_example_body ((s2, _), w2)) as [[r3|e] [[s3 o3] w3]] eqn:H3;
    [|done].
  apply show_example_body_ok in H3
    as (-> & a3 & e3 & -> & Hu3 & Hf3 & Hb3 & Hl3).
  unfold ret. intros [= <- <-].
  rewrite Hempty in Hu1. cbn [app] in Hu1. rewrite Hu1 in Hu2, Hf2.
  cbn [app] in Hu2. rewrite Hu2 in Hf3.
  rewrite Hl2, Hl1, Hloc in Hb3. rewrite Hl1, Hloc in Hb2. rewrite Hloc in Hb1.
  rewrite Hl2, Hl1, Hloc. cbn [app format_optional].
  assert (H21 : a2 ≠ a1) by (intros ->; apply Hf2, list_elem_of_here).
  assert (H31 : a3 ≠ a1) by (intros ->; apply Hf3, list_elem_of_here).
  assert (H32 : a3 ≠ a2)
    by (intros ->; apply Hf3, list_elem_of_further, list_elem_of_here).
  exists loc, a1, a2, a3, e1, e2, e3. split; [reflexivity|].
  split.
  - rewrite !NoDup_cons, !elem_of_cons, !elem_of_nil.
    split; [intuition congruence|]. split; [intuition congruence|].
    split; [tauto|apply NoDup_nil_2].
  - rewrite !elem_of_cons, elem_of_nil. intuition congruence.
Qed.

Lemma X19_show_example_output_witness :
  let w := scripted [Response 200 "9.9.9.9"; Response 200 "9.9.9.9";
                     Response 200 "1.1.1.1"; Response 200 "1.1.1.1";
                     Response 200 "1.1.1.1"; Response 200 "2.2.2.2";
                     Response 200 "2.2.2.2"; Response 200 "3.3.3.3";
                     Response 200 "3.3.3.3"] in
  let out := (show_example test_env w).2 in
  show_example test_env w = (Ok tt, (out.1, out.2)) ∧
  length out.1 = 9%nat ∧
  signals (log out.2) = 4%nat ∧
  ∃ loc a1 a2 a3, NoDup [a1; a2; a3] ∧ (loc ∉ [a1; a2; a3]) ∧
                  out.1 !! 0%nat = Some ("Local IP: " +:+ loc).
Proof.
  intros w out.
  assert (H : show_example test_env w = (Ok tt, (out.1, out.2)))
    by (vm_compute; reflexivity).
  split; [exact H|]. split; [vm_compute; reflexivity|].
  split; [vm_compute; reflexivity|].
  destruct (X19_show_example_output test_env w _ _ H)
    as (loc & a1 & a2 & a3 & e1 & e2 & e3 & Hout & Hnd & Hloc).
  exists loc, a1, a2, a3. split; [exact Hnd|]. split; [exact Hloc|].
  rewrite Hout. reflexivity.
Defined.

(** X26. The baseline check comes first: under [prevent_ips_match] an
    attempt that reads the baseline ends in [continue] and leaves the
    history as it was, also when [unique] is on and the baseline sits in
    a history that has reached [max_rotations]; reading the baseline
    never raises "All possible IPs have been exhausted.". *)
Theorem X26_baseline_rejected_before_uniqueness (u : bool)
    (s : TorIpRotator) (w : World) (b : string) :
  attempt_reads s w 0 b = true →
  Some b = local_ip s →
  ∃ s' w',
    rotate_ip_attempt u true (s, w) = (Ok None, (s', w')) ∧
    used_ips s' = used_ips s ∧
    signals (log w') = S (signals (log w)).
Proof.
  intros Hb Hloc.
  destruct (attempt_rejects_baseline u s w b Hb Hloc) as (url & Hrun).
  exists (probed s w url).1, (probed s w url).2.
  rewrite Hrun, <- surjective_pairing.
  split; [reflexivity|]. split; [reflexivity|apply probed_signals].
Qed.

Lemma X26_baseline_rejected_before_uniqueness_witness :
  let s := test_rotator "9.9.9.9" "5.5.5.5" 1 ["9.9.9.9"] in
  let w := scripted [Response 200 "9.9.9.9"] in
  "9.9.9.9" ∈ used_ips s ∧
  max_rotations s <= Z.of_nat (length (used_ips s)) ∧
  ∃ s' w',
    rotate_ip_attempt true true (s, w) = (Ok None, (s', w')) ∧
    used_ips s' = used_ips s ∧
    signals (log w') = S (signals (log w)).
Proof.
  intros s w. split; [apply list_elem_of_here|].
  split; [vm_compute; discriminate|].
  apply (X26_baseline_rejected_before_uniqueness true s w "9.9.9.9");
    [vm_compute; reflexivity|reflexivity].
Defined.

Lemma new_probes_with_initial_mounts_witness :
  let w := scripted [Response 200 "9.9.9.9"; Response 200 "9.9.9.9"] in
  let out := new test_env no_kwargs w in
  ∃ self,
    out = (Ok self, out.2) ∧
    log out.2 = [HttpGet Direct test_url; HttpGet (ViaClient ∅) test_url] ∧
    tor_mount_ip self !! "http://" =
      Some (HTTPTransport (Some "socks5://127.0.0.1:9050")).
Proof.
  intros w out.
  assert (H : ∃ self, new test_env no_kwargs w = (Ok self, out.2))
    by (eexists; vm_compute; reflexivity).
  destruct H as (self & H). exists self. split; [exact H|].
  destruct (new_probes_with_initial_mounts test_env w test_url self out.2
              eq_refl eq_refl eq_refl H) as [Hlog Hm].
  split; [exact Hlog|]. rewrite Hm. apply lookup_insert_eq.
Defined.
